(** * thor.py: command-line layer of a small HTTP load generator

    The repository holds one source file, [thor.py].  It declares six
    module-level globals, the function [usage] and the function
    [parse_cli_args]; the body of [if __name__ == '__main__':] is empty,
    so the dispatch engine that the specification describes is not
    written anywhere in the source.

    This development embeds [usage] and [parse_cli_args] as programs of a
    small monad that threads the module globals, collects what [print]
    writes and propagates Python exceptions ([sys.exit] raises
    [SystemExit]).  The builtins the two functions call ([int], [repr],
    [list.index], list subscripting, [in], [os.path.basename]) are
    modelled after CPython 3.6, the first version that accepts the
    f-strings of the source, on strings whose characters are code points
    below 256.  The dispatch engine is modelled from the specification in
    the module [Engine], and the entry point that joins the two in the
    module [Program]. *)

From Stdlib Require Import ZArith QArith String Ascii List Permutation Lia.
From stdpp Require Import base tactics option list strings gmap fin_maps.

Local Open Scope string_scope.
Local Open Scope list_scope.
Local Open Scope Z_scope.

(** ** Module globals (thor.py lines 11-16) *)

Record globals := Globals {
  PROCESSES : Z;
  REQUESTS  : Z;
  VERBOSE   : bool;
  URL       : option string   (* [None] is Python's [None] *)
}.

Definition SUCCESS : Z := 0.
Definition FAILURE : Z := 1.

(** The values the module assigns when it is loaded. *)
Definition initial_globals : globals :=
  {| PROCESSES := 1; REQUESTS := 1; VERBOSE := false; URL := None |}.

(** ** Exceptions and the execution monad *)

Inductive exn :=
| SystemExit (status : Z)
| IndexError (msg : string)
| ValueError (msg : string)
| NameError  (msg : string).

(** [str(e)] as the f-strings of the source use it. *)
Definition str_exn (e : exn) : string :=
  match e with
  | SystemExit n => EmptyString
  | IndexError m | ValueError m | NameError m => m
  end.

Definition is_NameError (e : exn) : bool :=
  match e with NameError _ => true | _ => false end.
Definition is_ValueError (e : exn) : bool :=
  match e with ValueError _ => true | _ => false end.

Inductive outcome (A : Type) :=
| Normal (a : A)
| Raised (e : exn).
Arguments Normal {A} a.
Arguments Raised {A} e.

(** A computation reads the globals and yields how it ended, the globals
    it leaves and the lines it printed, oldest first. *)
Definition M (A : Type) : Type := globals -> outcome A * globals * list string.

Definition ret {A} (a : A) : M A := fun g => (Normal a, g, []).

Definition bind {A B} (m : M A) (k : A -> M B) : M B :=
  fun g =>
    match m g with
    | (Normal a, g1, out1) =>
        match k a g1 with
        | (r, g2, out2) => (r, g2, out1 ++ out2)
        end
    | (Raised e, g1, out1) => (Raised e, g1, out1)
    end.

#[global] Instance M_ret : MRet M := @ret.
#[global] Instance M_bind : MBind M := fun A B k m => bind m k.

Definition raise {A} (e : exn) : M A := fun g => (Raised e, g, []).
Definition print (line : string) : M unit := fun g => (Normal tt, g, [line]).
Definition sys_exit {A} (status : Z) : M A := raise (SystemExit status).
Definition modify (f : globals -> globals) : M unit := fun g => (Normal tt, f g, []).

(** [if c: body] with no [else]. *)
Definition when (c : bool) (body : M unit) : M unit :=
  if c then body else mret tt.

(** [try: body / except C1 as e: h1 / except C2 as e: h2]: the first clause
    whose class test accepts the exception runs; an exception that no
    clause accepts propagates. *)
Definition try_except {A} (body : M A)
    (clauses : list ((exn -> bool) * (exn -> M A))) : M A :=
  fun g =>
    match body g with
    | (Raised e, g1, out1) =>
        match find (fun c => fst c e) clauses with
        | Some c =>
            match snd c e g1 with
            | (r, g2, out2) => (r, g2, out1 ++ out2)
            end
        | None => (Raised e, g1, out1)
        end
    | r => r
    end.

(** What the interpreter hands to the operating system when the program
    ends with the given outcome: [sys.exit(n)] gives [n], any other
    unhandled exception gives 1 after a traceback on stderr, and falling
    off the end of the script gives 0. *)
Definition exit_code {A} (r : outcome A) : Z :=
  match r with
  | Normal _ => 0
  | Raised (SystemExit n) => n
  | Raised _ => 1
  end.

(** ** Builtins *)

Definition nl : string := String (ascii_of_nat 10) EmptyString.

(** [x in l] on a list of strings. *)
Definition py_in (x : string) (l : list string) : bool :=
  existsb (String.eqb x) l.

(** Position of the first element equal to [x]. *)
Fixpoint index_of (x : string) (l : list string) : option nat :=
  match l with
  | [] => None
  | y :: l' => if String.eqb y x then Some 0%nat else S <$> index_of x l'
  end.

(** [len(l)] *)
Definition len (l : list string) : Z := Z.of_nat (length l).

(** [l[i]]: a negative index counts from the end. *)
Definition getitem (l : list string) (i : Z) : M string :=
  let j := if i <? 0 then len l + i else i in
  if (j <? 0) || (len l <=? j) then raise (IndexError "list index out of range")
  else match l !! Z.to_nat j with
       | Some x => mret x
       | None => raise (IndexError "list index out of range")
       end.

(** *** [repr] of a string

    CPython's [unicode_repr]: single quotes unless the string holds a
    single quote and no double quote; the quote in use and the backslash
    are escaped, tab, line feed and carriage return get their letter
    escapes, other unprintable characters are written [\xNN].  Among the
    code points below 256 the unprintable ones are 0-31, 127-160 and
    173. *)

Definition hex_digit (n : nat) : ascii :=
  ascii_of_nat (if (n <? 10)%nat then 48 + n else 87 + n).

Definition hex2 (n : nat) : string :=
  String (hex_digit (n / 16)) (String (hex_digit (n mod 16)) EmptyString).

Definition printable (n : nat) : bool :=
  negb ((n <? 32)%nat || ((127 <=? n)%nat && (n <=? 160)%nat) || (n =? 173)%nat).

Definition repr_char (quote c : ascii) : string :=
  let n := nat_of_ascii c in
  if Ascii.eqb c quote || Ascii.eqb c "\"%char then String "\"%char (String c EmptyString)
  else if (n =? 9)%nat then "\t"
  else if (n =? 10)%nat then "\n"
  else if (n =? 13)%nat then "\r"
  else if printable n then String c EmptyString
  else "\x" +:+ hex2 n.

Definition double_quote : ascii := ascii_of_nat 34.

Fixpoint contains_char (c : ascii) (s : string) : bool :=
  match s with
  | EmptyString => false
  | String d s' => Ascii.eqb d c || contains_char c s'
  end.

Fixpoint repr_body (quote : ascii) (s : string) : string :=
  match s with
  | EmptyString => EmptyString
  | String c s' => repr_char quote c +:+ repr_body quote s'
  end.

Definition py_repr (s : string) : string :=
  let quote :=
    if contains_char "'"%char s && negb (contains_char double_quote s)
    then double_quote else "'"%char in
  String quote (repr_body quote s +:+ String quote EmptyString).

(** [l.index(x)] *)
Definition list_index (x : string) (l : list string) : M Z :=
  match index_of x l with
  | Some i => mret (Z.of_nat i)
  | None => raise (ValueError (py_repr x +:+ " is not in list"))
  end.

(** *** [int] of a string

    [PyLong_FromUnicodeObject] with base 10: white space on both ends is
    skipped (code points 9-13 and 32, and 133 and 160 which CPython first
    maps to a blank), one sign is accepted, then decimal digits follow in
    which single underscores may stand between two digits.  Anything else
    raises [ValueError]; the message shows at most 200 characters of the
    argument's [repr]. *)

Definition is_space (c : ascii) : bool :=
  let n := nat_of_ascii c in
  ((9 <=? n)%nat && (n <=? 13)%nat) || (n =? 32)%nat || (n =? 133)%nat || (n =? 160)%nat.

Fixpoint lstrip (l : list ascii) : list ascii :=
  match l with
  | c :: l' => if is_space c then lstrip l' else l
  | [] => []
  end.

Definition strip (l : list ascii) : list ascii := rev (lstrip (rev (lstrip l))).

Definition digit_value (c : ascii) : option Z :=
  let n := nat_of_ascii c in
  if (48 <=? n)%nat && (n <=? 57)%nat then Some (Z.of_nat (n - 48)) else None.

(** [after_digit] tells whether the previous character was a digit: an
    underscore is accepted only then, and the literal must not end on
    one. *)
Fixpoint digits_value (acc : Z) (after_digit : bool) (l : list ascii) : option Z :=
  match l with
  | [] => if after_digit then Some acc else None
  | c :: l' =>
      match digit_value c with
      | Some d => digits_value (10 * acc + d) true l'
      | None =>
          if Ascii.eqb c "_"%char && after_digit then digits_value acc false l'
          else None
      end
  end.

Definition int_literal (s : string) : option Z :=
  match strip (list_ascii_of_string s) with
  | c :: l =>
      if Ascii.eqb c "+"%char then digits_value 0 false l
      else if Ascii.eqb c "-"%char then Z.opp <$> digits_value 0 false l
      else digits_value 0 false (c :: l)
  | [] => None
  end.

Definition invalid_literal (s : string) : string :=
  "invalid literal for int() with base 10: " +:+ substring 0 200 (py_repr s).

Definition py_int (s : string) : M Z :=
  match int_literal s with
  | Some n => mret n
  | None => raise (ValueError (invalid_literal s))
  end.

(** *** [os.path.basename] (posixpath): [i = p.rfind('/') + 1; return p[i:]] *)

Fixpoint rfind_from (c : ascii) (s : string) (pos : Z) (found : Z) : Z :=
  match s with
  | EmptyString => found
  | String d s' => rfind_from c s' (pos + 1) (if Ascii.eqb d c then pos else found)
  end.

Definition rfind (c : ascii) (s : string) : Z := rfind_from c s 0 (-1).

Definition basename (p : string) : string :=
  let i := rfind "/"%char p + 1 in
  substring (Z.to_nat i) (String.length p - Z.to_nat i) p.

(** ** [usage] (thor.py lines 20-28)

    [sys.argv] is an input that neither function assigns; both take it as
    the argument [argv]. *)

(** The template of the source after [format] has put [prog] in the place
    of its one replacement field. *)
Definition usage_text (prog : string) : string :=
  "Usage: " +:+ prog +:+ " [-p PROCESSES -r REQUESTS -v] URL" +:+ nl
  +:+ "    -h              Display help message" +:+ nl
  +:+ "    -v              Display verbose output" +:+ nl
  +:+ nl
  +:+ "    -p  PROCESSES   Number of processes to utilize (1)" +:+ nl
  +:+ "    -r  REQUESTS    Number of requests per process (1)" +:+ nl
  +:+ "    ".

Definition usage {A} (argv : list string) (status : Z) : M A :=
  prog ← getitem argv 0;
  print (usage_text (basename prog));;
  sys_exit status.

(** ** [parse_cli_args] (thor.py lines 33-66) *)

Definition set_URL (u : option string) (g : globals) : globals :=
  {| PROCESSES := PROCESSES g; REQUESTS := REQUESTS g; VERBOSE := VERBOSE g; URL := u |}.
Definition set_VERBOSE (b : bool) (g : globals) : globals :=
  {| PROCESSES := PROCESSES g; REQUESTS := REQUESTS g; VERBOSE := b; URL := URL g |}.
Definition set_PROCESSES (n : Z) (g : globals) : globals :=
  {| PROCESSES := n; REQUESTS := REQUESTS g; VERBOSE := VERBOSE g; URL := URL g |}.
Definition set_REQUESTS (n : Z) (g : globals) : globals :=
  {| PROCESSES := PROCESSES g; REQUESTS := n; VERBOSE := VERBOSE g; URL := URL g |}.

(** Line 62 and line 65 are plain string literals, not f-strings: their
    [{e}] is printed as written. *)
Definition parse_cli_args (argv : list string) : M unit :=
  url ← getitem argv (-1);
  modify (set_URL (Some url));;
  when (py_in "-h" argv) (usage argv SUCCESS);;
  when (py_in "-v" argv) (modify (set_VERBOSE true));;
  when (py_in "-p" argv) (
    p_idx ← list_index "-p" argv;
    when (p_idx >=? len argv) (usage argv FAILURE);;
    try_except
      (tok ← getitem argv (p_idx + 1);
       n ← py_int tok;
       modify (set_PROCESSES n))
      [ (is_NameError, fun e =>
           print ("Illegal value for process number: " +:+ str_exn e);;
           sys_exit FAILURE);
        (is_ValueError, fun e =>
           print ("An error occurred: " +:+ str_exn e);;
           sys_exit FAILURE) ]);;
  when (py_in "-r" argv) (
    r_idx ← list_index "-r" argv;
    when (r_idx >=? len argv) (usage argv FAILURE);;
    try_except
      (tok ← getitem argv (r_idx + 1);
       n ← py_int tok;
       modify (set_REQUESTS n))
      [ (is_NameError, fun e =>
           print "Illegal value for request number: {e}";;
           sys_exit FAILURE);
        (is_ValueError, fun e =>
           print "An error occured: {e}";;
           sys_exit FAILURE) ]).

(** ** Vocabulary for the statements about the command line *)

(** The token that follows the first occurrence of [flag]: [None] when the
    flag is absent, [Some None] when it is the last token. *)
Definition flag_value (flag : string) (argv : list string) : option (option string) :=
  (fun i => argv !! S i) <$> index_of flag argv.

(** The flag is there and the token after it is not an integer literal. *)
Definition bad_value (flag : string) (argv : list string) : bool :=
  match flag_value flag argv with
  | Some (Some tok) => negb (bool_decide (is_Some (int_literal tok)))
  | _ => false
  end.

(** The first occurrence of the flag is the last token. *)
Definition missing_value (flag : string) (argv : list string) : bool :=
  match flag_value flag argv with
  | Some None => true
  | _ => false
  end.

(** The flag is absent, or followed by an integer literal. *)
Definition accepted_value (flag : string) (argv : list string) : bool :=
  match flag_value flag argv with
  | None => true
  | Some None => false
  | Some (Some tok) => bool_decide (is_Some (int_literal tok))
  end.

(** The integer after the flag, or [d] when the flag gives none. *)
Definition count_after (flag : string) (argv : list string) (d : Z) : Z :=
  match flag_value flag argv with
  | Some (Some tok) => default d (int_literal tok)
  | _ => d
  end.

(** The line the [ValueError] clause of the [-p] block prints (line 53). *)
Definition p_error_line (tok : string) : string :=
  "An error occurred: " +:+ invalid_literal tok.

(** The line the [ValueError] clause of the [-r] block prints (line 65). *)
Definition r_error_line : string := "An error occured: {e}".

(** Tokens the parser treats as options. *)
Definition option_tokens : list string := ["-h"; "-v"; "-p"; "-r"].

(** Position [i] of [argv] holds an option token or the value the parser
    reads for [-p] or [-r]. *)
Definition option_slot (argv : list string) (i : nat) : bool :=
  match argv !! i with
  | Some tok => py_in tok option_tokens
  | None => false
  end
  || bool_decide (S <$> index_of "-p" argv = Some i)
  || bool_decide (S <$> index_of "-r" argv = Some i).

(** Lines 43-54 and lines 55-66 are the same statements up to the flag,
    the global assigned and the two handlers; [option_block] is that
    common shape, and [parse_cli_args_blocks] shows that the function is
    its two instances in sequence. *)
Definition option_block (flag : string) (setter : Z -> globals -> globals)
    (on_name_error on_value_error : exn -> M unit) (argv : list string) : M unit :=
  when (py_in flag argv) (
    idx ← list_index flag argv;
    when (idx >=? len argv) (usage argv FAILURE);;
    try_except
      (tok ← getitem argv (idx + 1);
       n ← py_int tok;
       modify (setter n))
      [ (is_NameError, on_name_error); (is_ValueError, on_value_error) ]).

(** A handler of the source: print one line, then [sys.exit(FAILURE)]. *)
Definition report_and_exit (line : exn -> string) (e : exn) : M unit :=
  print (line e);; sys_exit FAILURE.

(** [parse_cli_args] with the two [except NameError] clauses (lines 49-51
    and 61-63) replaced by arbitrary handlers. *)
Definition parse_cli_args_with (on_name_error_p on_name_error_r : exn -> M unit)
    (argv : list string) : M unit :=
  url ← getitem argv (-1);
  modify (set_URL (Some url));;
  when (py_in "-h" argv) (usage argv SUCCESS);;
  when (py_in "-v" argv) (modify (set_VERBOSE true));;
  option_block "-p" set_PROCESSES on_name_error_p
    (report_and_exit (fun e => "An error occurred: " +:+ str_exn e)) argv;;
  option_block "-r" set_REQUESTS on_name_error_r
    (report_and_exit (fun _ => "An error occured: {e}")) argv.

(** What one of the two option blocks (lines 43-54, 55-66) does, in closed
    form; [block_spec] below proves it of the embedded code. *)
Definition block_result (flag : string) (setter : Z -> globals -> globals)
    (error_line : string -> string) (argv : list string) (g : globals)
    : outcome unit * globals * list string :=
  match flag_value flag argv with
  | None => (Normal tt, g, [])
  | Some None => (Raised (IndexError "list index out of range"), g, [])
  | Some (Some tok) =>
      match int_literal tok with
      | Some n => (Normal tt, setter n g, [])
      | None => (Raised (SystemExit FAILURE), g, [error_line tok])
      end
  end.

(** The globals after lines 38-42, when [-h] is absent. *)
Definition after_flags (argv : list string) (g : globals) : globals :=
  let g1 := set_URL (last argv) g in
  if py_in "-v" argv then set_VERBOSE true g1 else g1.

(** The whole of [parse_cli_args] in closed form; [parse_cli_args_spec]
    below proves it of the embedded code. *)
Definition cli_result (argv : list string) (g : globals)
    : outcome unit * globals * list string :=
  match argv with
  | [] => (Raised (IndexError "list index out of range"), g, [])
  | prog :: _ =>
      if py_in "-h" argv
      then (Raised (SystemExit SUCCESS), set_URL (last argv) g,
            [usage_text (basename prog)])
      else
        match block_result "-p" set_PROCESSES p_error_line argv (after_flags argv g) with
        | (Normal _, g3, _) =>
            block_result "-r" set_REQUESTS (fun _ => r_error_line) argv g3
        | r => r
        end
  end.

(** ** Vocabulary for the statements about whole runs *)

(** The globals a run that returns normally leaves behind. *)
Definition parsed_globals (argv : list string) (g : globals) : globals :=
  {| PROCESSES := count_after "-p" argv (PROCESSES g);
     REQUESTS := count_after "-r" argv (REQUESTS g);
     VERBOSE := py_in "-v" argv || VERBOSE g;
     URL := last argv |}.

(** ** The dispatch engine *)

Module Engine.

(** Modelled from the spec: the data model of section 3.  The source has no
    [LoadConfig], [RequestOutcome], [WorkerTally] or [RunReport]; counts are
    integers, durations are whole numbers of a fixed time unit. *)

Inductive errorKind :=
| Timeout
| ConnectionError
| HTTPError (statusCode : Z)
| Unknown.

#[global] Instance errorKind_eq_dec : EqDecision errorKind.
Proof. solve_decision. Defined.

Definition errorKind_code (k : errorKind) : nat + Z :=
  match k with
  | Timeout => inl 0%nat
  | ConnectionError => inl 1%nat
  | Unknown => inl 2%nat
  | HTTPError c => inr c
  end.

Definition errorKind_of_code (c : nat + Z) : errorKind :=
  match c with
  | inl 0%nat => Timeout
  | inl 1%nat => ConnectionError
  | inl _ => Unknown
  | inr c => HTTPError c
  end.

#[global] Instance errorKind_countable : Countable errorKind.
Proof.
  apply (inj_countable' errorKind_code errorKind_of_code).
  intros []; reflexivity.
Defined.

Record LoadConfig := {
  targetURL : string;
  workerCount : Z;
  requestsPerWorker : Z;
  verbose : bool
}.

Record RequestOutcome := {
  ro_succeeded : bool;
  ro_latency : N;
  ro_errorKind : option errorKind
}.

Record WorkerTally := {
  workerID : Z;
  attempted : Z;
  succeeded : Z;
  failed : Z;
  failuresByKind : gmap errorKind Z;
  totalLatency : N
}.

Record RunReport := {
  totalAttempted : Z;
  totalSucceeded : Z;
  totalFailed : Z;
  rr_failuresByKind : gmap errorKind Z;
  wallClockElapsed : N;
  throughput : Q
}.

(** Modelled from the spec: the Aggregator of section 4.4, absent from the
    source.  It sums the three counts over the tallies, merges the
    per-kind mappings by adding the counts of a kind, and divides the
    total by the elapsed time, giving 0 when no time has elapsed. *)

Definition merge_kinds (m1 m2 : gmap errorKind Z) : gmap errorKind Z :=
  union_with (fun a b => Some (a + b)) m1 m2.

Definition sum_of (f : WorkerTally -> Z) (tallies : list WorkerTally) : Z :=
  foldr (fun t acc => f t + acc) 0 tallies.

Definition merged_kinds (tallies : list WorkerTally) : gmap errorKind Z :=
  foldr (fun t acc => merge_kinds (failuresByKind t) acc) ∅ tallies.

Definition throughput_of (total : Z) (elapsed : N) : Q :=
  match elapsed with
  | N0 => 0%Q
  | Npos p => Qmake total p
  end.

Definition aggregate (tallies : list WorkerTally) (elapsed : N) : RunReport :=
  let total := sum_of attempted tallies in
  {| totalAttempted := total;
     totalSucceeded := sum_of succeeded tallies;
     totalFailed := sum_of failed tallies;
     rr_failuresByKind := merged_kinds tallies;
     wallClockElapsed := elapsed;
     throughput := throughput_of total elapsed |}.

Section Run.

(** The world outside the engine: what the request that worker [w] issues
    as its [i]-th attempt comes back with, which URLs are well formed, and
    the wall-clock time between the two timestamps of the Dispatcher. *)
Variable execute : Z -> nat -> string -> RequestOutcome.
Variable well_formed : string -> bool.
Variable elapsed : N.

(** Modelled from the spec: the Worker of section 4.2, absent from the
    source.  Each attempt is one call of the Request Executor, counted
    once as attempted and once as succeeded or failed; a failure is
    filed under its kind, [Unknown] when the outcome names none. *)

Definition empty_tally (w : Z) : WorkerTally :=
  {| workerID := w; attempted := 0; succeeded := 0; failed := 0;
     failuresByKind := ∅; totalLatency := 0%N |}.

Definition count_kind (k : errorKind) (m : gmap errorKind Z) : gmap errorKind Z :=
  <[k := default 0 (m !! k) + 1]> m.

Definition record_outcome (t : WorkerTally) (o : RequestOutcome) : WorkerTally :=
  {| workerID := workerID t;
     attempted := attempted t + 1;
     succeeded := if ro_succeeded o then succeeded t + 1 else succeeded t;
     failed := if ro_succeeded o then failed t else failed t + 1;
     failuresByKind :=
       if ro_succeeded o then failuresByKind t
       else count_kind (default Unknown (ro_errorKind o)) (failuresByKind t);
     totalLatency := (totalLatency t + ro_latency o)%N |}.

Definition run (w : Z) (url : string) (requests : Z) : WorkerTally :=
  foldl (fun t i => record_outcome t (execute w i url)) (empty_tally w)
        (seq 0 (Z.to_nat requests)).

(** Modelled from the spec: the Dispatcher of section 4.3, absent from the
    source.  It rejects a configuration that breaks an invariant before
    any worker starts, otherwise runs [workerCount] workers, waits for all
    of them and aggregates their tallies.  Workers share no state, so the
    tally of each is a function of its own requests; the tallies are
    taken in the order of the worker numbers. *)

Inductive ConfigurationError :=
| BadWorkerCount
| BadRequestCount
| MalformedURL.

Definition valid_config (c : LoadConfig) : bool :=
  (1 <=? workerCount c) && (1 <=? requestsPerWorker c) && well_formed (targetURL c).

Definition validate (c : LoadConfig) : option ConfigurationError :=
  if negb (1 <=? workerCount c) then Some BadWorkerCount
  else if negb (1 <=? requestsPerWorker c) then Some BadRequestCount
  else if negb (well_formed (targetURL c)) then Some MalformedURL
  else None.

Definition spawn_all (c : LoadConfig) : list WorkerTally :=
  map (fun w => run (Z.of_nat w) (targetURL c) (requestsPerWorker c))
      (seq 0 (Z.to_nat (workerCount c))).

Definition runLoad (c : LoadConfig) : ConfigurationError + RunReport :=
  match validate c with
  | Some e => inl e
  | None => inr (aggregate (spawn_all c) elapsed)
  end.

End Run.

End Engine.

(** ** The program as a whole *)

(** The flag is there and the token after it is not a positive integer:
    it is no integer literal, or it is one that is zero or negative. *)
Definition not_positive_value (flag : string) (argv : list string) : bool :=
  match flag_value flag argv with
  | Some (Some tok) =>
      match int_literal tok with
      | Some n => n <=? 0
      | None => true
      end
  | _ => false
  end.

Module Program.

Section Main.

(** The world outside the program, as in [Engine], and the wording of a
    configuration error, which the spec leaves open. *)
Variable execute : Z -> nat -> string -> Engine.RequestOutcome.
Variable well_formed : string -> bool.
Variable elapsed : N.
Variable describe : Engine.ConfigurationError -> string.

(** Modelled from the spec: the entry point, whose body is empty in the
    source.  Sections 2 and 6: the command-line layer hands the URL, the
    worker count, the requests per worker and the verbosity to the
    Dispatcher; sections 6 and 7: a configuration error is shown to the
    user before any work starts and the exit code is 1, a completed run
    hands its report to the Reporter and the exit code is 0. *)

Definition config_of_globals (g : globals) : Engine.LoadConfig :=
  {| Engine.targetURL := default EmptyString (URL g);
     Engine.workerCount := PROCESSES g;
     Engine.requestsPerWorker := REQUESTS g;
     Engine.verbose := VERBOSE g |}.

Definition dispatch : M Engine.RunReport :=
  fun g =>
    match Engine.runLoad execute well_formed elapsed (config_of_globals g) with
    | inl e => (Raised (SystemExit FAILURE), g, [describe e])
    | inr report => (Normal report, g, [])
    end.

Definition main (argv : list string) : M Engine.RunReport :=
  parse_cli_args argv ≫= fun _ => dispatch.

(** Modelled from the spec: the calls of the Request Executor that a run
    of the Dispatcher makes, as pairs of a worker number and an attempt
    number: none when the configuration is rejected (section 4.3, never
    starting any worker), otherwise [requestsPerWorker] for each of the
    [workerCount] workers (section 4.2). *)
Definition requests_issued (c : Engine.LoadConfig) : list (Z * nat) :=
  match Engine.validate well_formed c with
  | Some _ => []
  | None =>
      flat_map
        (fun w => map (fun i => (Z.of_nat w, i))
                      (seq 0 (Z.to_nat (Engine.requestsPerWorker c))))
        (seq 0 (Z.to_nat (Engine.workerCount c)))
  end.

(** The calls of the Request Executor in a run of the whole program:
    those of the Dispatcher when the parser returns, none otherwise. *)
Definition requests_of_main (argv : list string) (g : globals) : list (Z * nat) :=
  match parse_cli_args argv g with
  | (Normal _, g', _) => requests_issued (config_of_globals g')
  | _ => []
  end.

End Main.

End Program.

(** * Proofs *)

(** ** The embedding on concrete inputs *)

Example int_literal_plain : int_literal "12" = Some 12.
Proof. reflexivity. Qed.

Example int_literal_signed_padded : int_literal "  -007 " = Some (-7).
Proof. reflexivity. Qed.

Example int_literal_underscores :
  int_literal "1_000" = Some 1000 /\ int_literal "1__0" = None /\
  int_literal "_1" = None /\ int_literal "1_" = None.
Proof. repeat split; reflexivity. Qed.

Example int_literal_rejects :
  int_literal "abc" = None /\ int_literal EmptyString = None /\
  int_literal "-" = None /\ int_literal "- 1" = None /\ int_literal "1.5" = None.
Proof. repeat split; reflexivity. Qed.

Example py_repr_plain : py_repr "abc" = "'abc'".
Proof. reflexivity. Qed.

Example py_repr_quote : py_repr "it's" = String double_quote ("it's" +:+ String double_quote EmptyString).
Proof. reflexivity. Qed.

Example basename_path : basename "/usr/local/bin/thor" = "thor".
Proof. reflexivity. Qed.

Example basename_no_directory : basename "thor.py" = "thor.py".
Proof. reflexivity. Qed.

Example run_all_options :
  parse_cli_args ["./thor.py"; "-v"; "-p"; "4"; "-r"; "10"; "http://example.org/"]
    initial_globals
  = (Normal tt,
     {| PROCESSES := 4; REQUESTS := 10; VERBOSE := true;
        URL := Some "http://example.org/" |}, []).
Proof. reflexivity. Qed.

Example run_bad_processes :
  parse_cli_args ["./thor.py"; "-p"; "abc"; "http://example.org/"] initial_globals
  = (Raised (SystemExit 1),
     {| PROCESSES := 1; REQUESTS := 1; VERBOSE := false;
        URL := Some "http://example.org/" |},
     ["An error occurred: invalid literal for int() with base 10: 'abc'"]).
Proof. reflexivity. Qed.

Example run_bad_requests :
  parse_cli_args ["./thor.py"; "-r"; "abc"; "http://example.org/"] initial_globals
  = (Raised (SystemExit 1),
     {| PROCESSES := 1; REQUESTS := 1; VERBOSE := false;
        URL := Some "http://example.org/" |},
     ["An error occured: {e}"]).
Proof. reflexivity. Qed.

Example run_flag_last :
  parse_cli_args ["./thor.py"; "http://example.org/"; "-p"] initial_globals
  = (Raised (IndexError "list index out of range"),
     {| PROCESSES := 1; REQUESTS := 1; VERBOSE := false; URL := Some "-p" |}, []).
Proof. reflexivity. Qed.

Example run_repeated_flag :
  parse_cli_args ["./thor.py"; "-p"; "3"; "-p"] initial_globals
  = (Normal tt,
     {| PROCESSES := 3; REQUESTS := 1; VERBOSE := false; URL := Some "-p" |}, []).
Proof. reflexivity. Qed.

Example run_no_arguments :
  parse_cli_args ["./thor.py"] initial_globals
  = (Normal tt,
     {| PROCESSES := 1; REQUESTS := 1; VERBOSE := false; URL := Some "./thor.py" |}, []).
Proof. reflexivity. Qed.

(** ** Lists and indices *)

Lemma index_of_lookup x l i :
  index_of x l = Some i -> l !! i = Some x.
Proof.
  revert i. induction l as [|y l IH]; intros i; simpl; [discriminate|].
  destruct (String.eqb_spec y x) as [->|Hne].
  - intros [= <-]. reflexivity.
  - destruct (index_of x l) as [j|]; simpl; [|discriminate].
    intros [= <-]. simpl. apply IH. reflexivity.
Qed.

Lemma index_of_lt x l i :
  index_of x l = Some i -> (i < length l)%nat.
Proof.
  intros H. apply index_of_lookup in H. eapply lookup_lt_Some, H.
Qed.

Lemma py_in_index_of x l :
  py_in x l = bool_decide (is_Some (index_of x l)).
Proof.
  induction l as [|y l IH].
  - reflexivity.
  - cbn [py_in existsb index_of]. rewrite String.eqb_sym.
    destruct (String.eqb y x); [reflexivity|].
    fold (py_in x l). rewrite IH.
    destruct (index_of x l); reflexivity.
Qed.

Lemma py_in_true x l :
  py_in x l = true -> exists i, index_of x l = Some i.
Proof.
  rewrite py_in_index_of. intros H. apply bool_decide_eq_true_1 in H.
  destruct H as [i H]. eauto.
Qed.

Lemma py_in_false x l :
  py_in x l = false -> index_of x l = None.
Proof.
  rewrite py_in_index_of. intros H. apply bool_decide_eq_false_1 in H.
  destruct (index_of x l); [|reflexivity]. exfalso. eauto.
Qed.

Lemma py_in_elem_of x l :
  py_in x l = true <-> x ∈ l.
Proof.
  unfold py_in. rewrite existsb_exists. split.
  - intros (y & Hy & E). apply String.eqb_eq in E. subst.
    apply list_elem_of_In, Hy.
  - intros H. exists x. split; [apply list_elem_of_In, H|apply String.eqb_refl].
Qed.

Lemma getitem_nat l (i : nat) g :
  getitem l (Z.of_nat i) g =
    match l !! i with
    | Some x => (Normal x, g, [])
    | None => (Raised (IndexError "list index out of range"), g, [])
    end.
Proof.
  unfold getitem, len. cbv zeta.
  rewrite (proj2 (Z.ltb_ge (Z.of_nat i) 0)) by lia. cbv iota.
  rewrite (proj2 (Z.ltb_ge (Z.of_nat i) 0)) by lia.
  rewrite Nat2Z.id. cbn [orb].
  destruct (Z.leb_spec (Z.of_nat (length l)) (Z.of_nat i)) as [Hle|Hlt].
  - rewrite (proj2 (lookup_ge_None l i)) by lia. reflexivity.
  - destruct (l !! i); reflexivity.
Qed.

Lemma getitem_last l g :
  getitem l (-1) g =
    match last l with
    | Some x => (Normal x, g, [])
    | None => (Raised (IndexError "list index out of range"), g, [])
    end.
Proof.
  destruct l as [|y l _] using rev_ind; [reflexivity|].
  unfold getitem, len. cbv zeta.
  rewrite last_snoc, length_app. cbn [length Z.ltb Z.compare].
  replace (Z.of_nat (length l + 1) + -1) with (Z.of_nat (length l)) by lia.
  rewrite (proj2 (Z.ltb_ge (Z.of_nat (length l)) 0)) by lia.
  rewrite (proj2 (Z.leb_gt (Z.of_nat (length l + 1)) (Z.of_nat (length l)))) by lia.
  cbn [orb]. rewrite Nat2Z.id.
  rewrite lookup_app_r by lia. rewrite Nat.sub_diag. reflexivity.
Qed.

(** ** The two option blocks *)

Lemma parse_cli_args_blocks argv :
  parse_cli_args argv =
    parse_cli_args_with
      (report_and_exit (fun e => "Illegal value for process number: " +:+ str_exn e))
      (report_and_exit (fun _ => "Illegal value for request number: {e}")) argv.
Proof. reflexivity. Qed.

(** The guard of lines 45 and 57 compares an index that [list.index]
    returned with the length of the same list. *)
Lemma guard_false flag argv i :
  index_of flag argv = Some i -> (Z.of_nat i >=? len argv) = false.
Proof.
  intros H. apply index_of_lt in H. unfold len.
  rewrite Z.geb_leb. apply Z.leb_gt. lia.
Qed.

Lemma block_spec flag setter on_name_error value_line argv g :
  option_block flag setter on_name_error (report_and_exit value_line) argv g
  = block_result flag setter
      (fun tok => value_line (ValueError (invalid_literal tok))) argv g.
Proof.
  unfold option_block, block_result, flag_value, when.
  rewrite py_in_index_of.
  destruct (index_of flag argv) as [i|] eqn:Hi; [|reflexivity].
  rewrite bool_decide_eq_true_2 by eauto.
  cbn [fmap option_fmap option_map].
  unfold mbind, M_bind, bind, list_index. rewrite Hi.
  cbn [mret M_ret ret]. rewrite (guard_false _ _ _ Hi).
  cbn [mret M_ret ret app]. unfold try_except.
  replace (Z.of_nat i + 1) with (Z.of_nat (S i)) by lia.
  rewrite getitem_nat.
  destruct (argv !! S i) as [tok|]; [|reflexivity].
  unfold py_int. destruct (int_literal tok) as [n|]; reflexivity.
Qed.

Lemma block_result_normal flag setter line argv g u g' out :
  block_result flag setter line argv g = (Normal u, g', out) -> out = [].
Proof.
  unfold block_result. intros H.
  repeat case_match; congruence.
Qed.

(** ** [parse_cli_args] in closed form *)

(** Expose the first statement of a sequence. *)
Ltac step_bind := unfold mbind at 1, M_bind at 1, bind at 1.

Lemma parse_cli_args_with_spec h_p h_r argv g :
  parse_cli_args_with h_p h_r argv g = cli_result argv g.
Proof.
  unfold parse_cli_args_with, cli_result.
  step_bind. rewrite getitem_last.
  destruct argv as [|prog rest]; [reflexivity|].
  destruct (last (prog :: rest)) as [url|] eqn:Hlast;
    [|destruct rest using rev_ind;
      [discriminate|rewrite app_comm_cons, last_snoc in Hlast; discriminate]].
  step_bind. cbn [modify app]. step_bind.
  destruct (py_in "-h" (prog :: rest)) eqn:Hh; [reflexivity|].
  cbn [when mret M_ret ret app].
  step_bind. step_bind.
  unfold after_flags. rewrite Hlast.
  destruct (py_in "-v" (prog :: rest));
    cbn [when modify mret M_ret ret app];
    rewrite block_spec;
    (destruct (block_result "-p" _ _ _ _) as [[[[]|e] g3] out3] eqn:Hp;
     [|reflexivity]);
    apply block_result_normal in Hp; subst out3;
    rewrite block_spec;
    destruct (block_result "-r" _ _ _ _) as [[r4 g4] out4]; reflexivity.
Qed.

Lemma parse_cli_args_spec argv g :
  parse_cli_args argv g = cli_result argv g.
Proof. rewrite parse_cli_args_blocks. apply parse_cli_args_with_spec. Qed.

(** An exception ends the sequence: what follows is not run. *)
Lemma bind_raised {A B} (m : M A) (k : A -> M B) g e g' out :
  m g = (Raised e, g', out) -> (m ≫= k) g = (Raised e, g', out).
Proof. intros H. unfold mbind, M_bind, bind. rewrite H. reflexivity. Qed.

(** ** The command line: [-h] *)

(** C5.  For every command line in which [-h] occurs, [parse_cli_args]
    prints the usage text (with the base name of the program) and raises
    [SystemExit(SUCCESS)]: the program exits with code 0, and whatever
    would follow the parser is not run. *)
Theorem help_prints_usage_and_exits_0
    (argv : list string) (g : globals) (B : Type) (core : unit -> M B) :
  "-h" ∈ argv ->
  exists prog rest,
    argv = prog :: rest /\
    (parse_cli_args argv ≫= core) g
      = (Raised (SystemExit SUCCESS), set_URL (last argv) g,
         [usage_text (basename prog)]) /\
    exit_code ((parse_cli_args argv ≫= core) g).1.1 = 0.
Proof.
  intros Hh. apply py_in_elem_of in Hh.
  destruct argv as [|prog rest]; [discriminate|].
  exists prog, rest.
  assert (parse_cli_args (prog :: rest) g
          = (Raised (SystemExit SUCCESS), set_URL (last (prog :: rest)) g,
             [usage_text (basename prog)])) as Hrun.
  { rewrite parse_cli_args_spec. unfold cli_result. rewrite Hh. reflexivity. }
  rewrite (bind_raised _ _ _ _ _ _ Hrun). auto.
Qed.

Lemma help_prints_usage_and_exits_0_witness :
  "-h" ∈ ["/usr/local/bin/thor"; "-p"; "abc"; "-h"; "http://example.org/"] /\
  exists prog rest,
    ["/usr/local/bin/thor"; "-p"; "abc"; "-h"; "http://example.org/"] = prog :: rest /\
    (parse_cli_args ["/usr/local/bin/thor"; "-p"; "abc"; "-h"; "http://example.org/"]
       ≫= (fun _ => print "request sent")) initial_globals
      = (Raised (SystemExit SUCCESS),
         set_URL (last ["/usr/local/bin/thor"; "-p"; "abc"; "-h"; "http://example.org/"])
           initial_globals,
         [usage_text (basename prog)]) /\
    exit_code ((parse_cli_args ["/usr/local/bin/thor"; "-p"; "abc"; "-h"; "http://example.org/"]
       ≫= (fun _ => print "request sent")) initial_globals).1.1 = 0.
Proof.
  assert ("-h" ∈ ["/usr/local/bin/thor"; "-p"; "abc"; "-h"; "http://example.org/"]) as H
    by (apply py_in_elem_of; reflexivity).
  split; [exact H|].
  exact (help_prints_usage_and_exits_0 _ initial_globals unit
           (fun _ => print "request sent") H).
Defined.

(** ** The command line: defaults *)

Lemma flag_value_absent flag argv :
  py_in flag argv = false -> flag_value flag argv = None.
Proof. intros H. unfold flag_value. rewrite (py_in_false _ _ H). reflexivity. Qed.

Lemma block_result_absent flag setter line argv g :
  py_in flag argv = false -> block_result flag setter line argv g = (Normal tt, g, []).
Proof. intros H. unfold block_result. rewrite (flag_value_absent _ _ H). reflexivity. Qed.

Lemma p_block_keeps_REQUESTS line argv g :
  REQUESTS (block_result "-p" set_PROCESSES line argv g).1.2 = REQUESTS g.
Proof. unfold block_result. repeat case_match; reflexivity. Qed.

Lemma r_block_keeps_PROCESSES line argv g :
  PROCESSES (block_result "-r" set_REQUESTS line argv g).1.2 = PROCESSES g.
Proof. unfold block_result. repeat case_match; reflexivity. Qed.

Lemma after_flags_PROCESSES argv g : PROCESSES (after_flags argv g) = PROCESSES g.
Proof. unfold after_flags. case_match; reflexivity. Qed.

Lemma after_flags_REQUESTS argv g : REQUESTS (after_flags argv g) = REQUESTS g.
Proof. unfold after_flags. case_match; reflexivity. Qed.

Lemma after_flags_URL argv g : URL (after_flags argv g) = last argv.
Proof. unfold after_flags. case_match; reflexivity. Qed.

Lemma block_result_URL flag setter line argv g :
  (setter = set_PROCESSES \/ setter = set_REQUESTS) ->
  URL (block_result flag setter line argv g).1.2 = URL g.
Proof.
  intros [-> | ->]; unfold block_result; repeat case_match; reflexivity.
Qed.

(** C6.  Both defaults are 1, and parsing leaves [PROCESSES] as it was for
    every command line without [-p], and [REQUESTS] as it was for every
    command line without [-r]. *)
Theorem absent_flag_keeps_default (argv : list string) (g : globals) :
  (PROCESSES initial_globals = 1 /\ REQUESTS initial_globals = 1) /\
  (py_in "-p" argv = false ->
     PROCESSES (parse_cli_args argv g).1.2 = PROCESSES g) /\
  (py_in "-r" argv = false ->
     REQUESTS (parse_cli_args argv g).1.2 = REQUESTS g).
Proof.
  split; [split; reflexivity|].
  rewrite parse_cli_args_spec. unfold cli_result.
  destruct argv as [|prog rest]; [split; reflexivity|].
  destruct (py_in "-h" (prog :: rest)); [split; reflexivity|].
  split; intros Habs.
  - rewrite (block_result_absent _ _ _ _ _ Habs).
    rewrite r_block_keeps_PROCESSES. apply after_flags_PROCESSES.
  - pose proof (p_block_keeps_REQUESTS p_error_line (prog :: rest)
                  (after_flags (prog :: rest) g)) as Hp.
    destruct (block_result "-p" _ _ _ _) as [[[[]|e] g3] out3]; simpl in Hp.
    + rewrite (block_result_absent _ _ _ _ _ Habs). simpl.
      rewrite Hp. apply after_flags_REQUESTS.
    + simpl. rewrite Hp. apply after_flags_REQUESTS.
Qed.

Lemma absent_flag_keeps_default_witness :
  PROCESSES (parse_cli_args ["thor"; "-v"; "http://example.org/"] initial_globals).1.2 = 1 /\
  REQUESTS (parse_cli_args ["thor"; "-v"; "http://example.org/"] initial_globals).1.2 = 1.
Proof.
  destruct (absent_flag_keeps_default ["thor"; "-v"; "http://example.org/"] initial_globals)
    as [_ [Hp Hr]].
  split; [apply Hp | apply Hr]; reflexivity.
Defined.

(** ** The command line: the URL *)

(** C4, as stated, fails: on [thor -p 3] the parser returns normally with
    [URL] set to ["3"], the token it has also read as the value of [-p]
    (position 2 is an option slot); no positional argument is required. *)
Lemma url_may_be_an_option_value :
  parse_cli_args ["thor"; "-p"; "3"] initial_globals
    = (Normal tt,
       {| PROCESSES := 3; REQUESTS := 1; VERBOSE := false; URL := Some "3" |}, []) /\
  flag_value "-p" ["thor"; "-p"; "3"] = Some (Some "3") /\
  last ["thor"; "-p"; "3"] = Some "3" /\
  option_slot ["thor"; "-p"; "3"] 2 = true.
Proof. repeat split; reflexivity. Qed.

Lemma url_after_parsing (argv : list string) (u : string) (g : globals) :
  URL (parse_cli_args (argv ++ [u]) g).1.2 = Some u.
Proof.
  rewrite parse_cli_args_spec. unfold cli_result.
  destruct (argv ++ [u]) as [|prog rest] eqn:E.
  { destruct argv; discriminate. }
  rewrite <- E. clear E.
  destruct (py_in "-h" (argv ++ [u])).
  { simpl. apply last_snoc. }
  pose proof (block_result_URL "-p" set_PROCESSES p_error_line (argv ++ [u])
                (after_flags (argv ++ [u]) g) (or_introl eq_refl)) as Hp.
  rewrite after_flags_URL, last_snoc in Hp.
  destruct (block_result "-p" _ _ _ _) as [[[[]|e] g3] out3]; simpl in Hp.
  - rewrite (block_result_URL "-r" set_REQUESTS _ _ _ (or_intror eq_refl)). exact Hp.
  - exact Hp.
Qed.

Lemma not_option_token u flag :
  u ∉ option_tokens -> flag ∈ option_tokens -> String.eqb flag u = false.
Proof.
  intros Hu Hflag. apply String.eqb_neq. intros <-. exact (Hu Hflag).
Qed.

Lemma py_in_snoc x l u :
  py_in x (l ++ [u]) = py_in x l || String.eqb x u.
Proof. unfold py_in. rewrite existsb_app. simpl. rewrite orb_false_r. reflexivity. Qed.

Lemma index_of_snoc x l u :
  String.eqb x u = false -> index_of x (l ++ [u]) = index_of x l.
Proof.
  intros Hu. induction l as [|y l IH]; simpl.
  - rewrite String.eqb_sym, Hu. reflexivity.
  - rewrite IH. reflexivity.
Qed.

Lemma flag_value_snoc flag l u :
  String.eqb flag u = false -> missing_value flag l = false ->
  flag_value flag (l ++ [u]) = flag_value flag l.
Proof.
  unfold missing_value, flag_value. intros Hu Hmiss.
  rewrite (index_of_snoc _ _ _ Hu).
  destruct (index_of flag l) as [i|]; [|reflexivity]. simpl in *.
  destruct (l !! S i) as [tok|] eqn:E; [|discriminate].
  rewrite (lookup_app_l_Some _ _ _ _ E). reflexivity.
Qed.

(** [cli_result] for a command line that is not empty, without taking the
    list apart. *)
Lemma cli_result_nonempty argv g :
  argv <> [] ->
  cli_result argv g =
    if py_in "-h" argv
    then (Raised (SystemExit SUCCESS), set_URL (last argv) g,
          [usage_text (basename (default EmptyString (head argv)))])
    else
      match block_result "-p" set_PROCESSES p_error_line argv (after_flags argv g) with
      | (Normal _, g3, _) => block_result "-r" set_REQUESTS (fun _ => r_error_line) argv g3
      | r => r
      end.
Proof. intros Hne. destruct argv as [|prog rest]; [congruence|]. reflexivity. Qed.

(** C4, amended.  [URL] is the last element of [sys.argv], whatever that
    element is and however the parser ends.  The command-line layer does
    not validate it: when the last token is neither one of [-h], [-v],
    [-p], [-r] nor the value read for [-p] or [-r], putting any other such
    token in its place changes neither how the parser ends, nor what it
    prints, nor any global but [URL].  Nor must it be a positional
    argument distinct from the options and their values: with the program
    name alone the parser returns normally with [URL] the program name,
    and on [prog -p N] it returns normally with [URL] the token [N] that
    it has also read as the value of [-p]. *)
Theorem url_is_unchecked_last_token
    (argv : list string) (u u' : string) (g : globals) :
  URL (parse_cli_args (argv ++ [u]) g).1.2 = Some u /\
  (argv <> [] ->
   u ∉ option_tokens -> u' ∉ option_tokens ->
   missing_value "-p" argv = false -> missing_value "-r" argv = false ->
   (parse_cli_args (argv ++ [u']) g).1.1 = (parse_cli_args (argv ++ [u]) g).1.1 /\
   (parse_cli_args (argv ++ [u']) g).2 = (parse_cli_args (argv ++ [u]) g).2 /\
   (parse_cli_args (argv ++ [u']) g).1.2
     = set_URL (Some u') (parse_cli_args (argv ++ [u]) g).1.2) /\
  (u ∉ option_tokens ->
   parse_cli_args [u] g = (Normal tt, set_URL (Some u) g, [])) /\
  (forall n : Z,
     u ∉ option_tokens -> int_literal u' = Some n ->
     parse_cli_args [u; "-p"; u'] g
       = (Normal tt, set_PROCESSES n (set_URL (Some u') g), [])).
Proof.
  split; [apply url_after_parsing|]. split; [|split].
  - intros Hne Hu Hu' Hp Hr.
    assert (forall flag, flag ∈ option_tokens -> String.eqb flag u = false) as Eu
      by (intros flag; apply not_option_token, Hu).
    assert (forall flag, flag ∈ option_tokens -> String.eqb flag u' = false) as Eu'
      by (intros flag; apply not_option_token, Hu').
    assert ("-h" ∈ option_tokens /\ "-v" ∈ option_tokens /\
            "-p" ∈ option_tokens /\ "-r" ∈ option_tokens) as (Ih & Iv & Ip & Ir)
      by (repeat split; apply py_in_elem_of; reflexivity).
    rewrite !parse_cli_args_spec.
    rewrite !cli_result_nonempty by (destruct argv; discriminate).
    unfold block_result, after_flags.
    rewrite !py_in_snoc, !last_snoc.
    rewrite !(flag_value_snoc "-p") by auto.
    rewrite !(flag_value_snoc "-r") by auto.
    rewrite (Eu _ Ih), (Eu' _ Ih), (Eu _ Iv), (Eu' _ Iv), !orb_false_r.
    destruct argv as [|prog rest]; [congruence|]. cbn [app head default from_option].
    destruct (py_in "-h" (prog :: rest)); [repeat split|].
    destruct (py_in "-v" (prog :: rest));
      (destruct (flag_value "-p" (prog :: rest)) as [[tokp|]|];
       [destruct (int_literal tokp)|..]);
      (destruct (flag_value "-r" (prog :: rest)) as [[tokr|]|];
       [destruct (int_literal tokr)|..]);
      repeat split.
  - intros Hu.
    assert (forall flag, flag ∈ option_tokens -> String.eqb flag u = false) as Eu
      by (intros flag; apply not_option_token, Hu).
    assert ("-h" ∈ option_tokens /\ "-v" ∈ option_tokens /\
            "-p" ∈ option_tokens /\ "-r" ∈ option_tokens) as (Ih & Iv & Ip & Ir)
      by (repeat split; apply py_in_elem_of; reflexivity).
    rewrite parse_cli_args_spec.
    unfold cli_result, block_result, after_flags, flag_value, py_in.
    cbn [existsb index_of]. rewrite !(String.eqb_sym u).
    rewrite (Eu _ Ih), (Eu _ Iv), (Eu _ Ip), (Eu _ Ir). reflexivity.
  - intros n Hu Hint.
    assert (forall flag, flag ∈ option_tokens -> String.eqb flag u = false) as Eu
      by (intros flag; apply not_option_token, Hu).
    assert (forall flag, flag ∈ option_tokens -> String.eqb flag u' = false) as Eu'.
    { intros flag Hflag. apply String.eqb_neq. intros <-.
      apply py_in_elem_of in Hflag. unfold py_in, option_tokens in Hflag.
      cbn [existsb] in Hflag.
      repeat (apply orb_prop in Hflag; destruct Hflag as [Hflag|Hflag];
              [apply String.eqb_eq in Hflag; subst flag; discriminate|]).
      discriminate. }
    assert ("-h" ∈ option_tokens /\ "-v" ∈ option_tokens /\
            "-p" ∈ option_tokens /\ "-r" ∈ option_tokens) as (Ih & Iv & Ip & Ir)
      by (repeat split; apply py_in_elem_of; reflexivity).
    rewrite parse_cli_args_spec.
    unfold cli_result, block_result, after_flags, flag_value, py_in.
    cbn [existsb index_of]. rewrite !(String.eqb_sym u), !(String.eqb_sym u').
    rewrite (Eu _ Ih), (Eu _ Iv), (Eu _ Ip), (Eu _ Ir),
            (Eu' _ Ih), (Eu' _ Iv), (Eu' _ Ir).
    cbn. rewrite Hint. reflexivity.
Qed.

Lemma url_is_unchecked_last_token_witness :
  (parse_cli_args (["thor"; "-v"; "-p"; "2"] ++ ["not a url"]) initial_globals).1.1
    = (parse_cli_args (["thor"; "-v"; "-p"; "2"] ++ ["http://example.org/"])
         initial_globals).1.1 /\
  (parse_cli_args (["thor"; "-v"; "-p"; "2"] ++ ["not a url"]) initial_globals).2
    = (parse_cli_args (["thor"; "-v"; "-p"; "2"] ++ ["http://example.org/"])
         initial_globals).2 /\
  (parse_cli_args (["thor"; "-v"; "-p"; "2"] ++ ["not a url"]) initial_globals).1.2
    = set_URL (Some "not a url")
        (parse_cli_args (["thor"; "-v"; "-p"; "2"] ++ ["http://example.org/"])
           initial_globals).1.2.
Proof.
  apply (url_is_unchecked_last_token ["thor"; "-v"; "-p"; "2"]
           "http://example.org/" "not a url" initial_globals);
    try reflexivity; try discriminate;
    intros H; apply py_in_elem_of in H; discriminate.
Defined.

(** ** The command line: values of [-p] and [-r] *)

Lemma cli_result_no_help argv g :
  argv <> [] -> py_in "-h" argv = false ->
  cli_result argv g =
    match block_result "-p" set_PROCESSES p_error_line argv (after_flags argv g) with
    | (Normal _, g3, _) => block_result "-r" set_REQUESTS (fun _ => r_error_line) argv g3
    | r => r
    end.
Proof.
  intros Hne Hh. destruct argv as [|prog rest]; [congruence|].
  unfold cli_result. rewrite Hh. reflexivity.
Qed.

Lemma flag_value_nonempty flag argv v :
  flag_value flag argv = Some v -> argv <> [].
Proof. intros H ->. discriminate. Qed.

Lemma bad_value_inv flag argv :
  bad_value flag argv = true ->
  exists tok, flag_value flag argv = Some (Some tok) /\ int_literal tok = None.
Proof.
  unfold bad_value. destruct (flag_value flag argv) as [[tok|]|]; try discriminate.
  intros H. exists tok. split; [reflexivity|].
  destruct (int_literal tok) eqn:E; [discriminate|reflexivity].
Qed.

Lemma accepted_value_inv flag argv :
  accepted_value flag argv = true ->
  flag_value flag argv = None \/
  exists tok n, flag_value flag argv = Some (Some tok) /\ int_literal tok = Some n.
Proof.
  unfold accepted_value. destruct (flag_value flag argv) as [[tok|]|].
  - intros H. right. destruct (int_literal tok) as [n|] eqn:E; [eauto|discriminate].
  - discriminate.
  - left. reflexivity.
Qed.

(** C1, as stated, fails: with [-h] on the command line the bad value of
    [-p] is never looked at, and the program exits with code 0. *)
Lemma bad_value_after_help_exits_0 :
  bad_value "-p" ["thor"; "-h"; "-p"; "abc"; "http://example.org/"] = true /\
  parse_cli_args ["thor"; "-h"; "-p"; "abc"; "http://example.org/"] initial_globals
    = (Raised (SystemExit 0),
       {| PROCESSES := 1; REQUESTS := 1; VERBOSE := false;
          URL := Some "http://example.org/" |},
       [usage_text "thor"]) /\
  exit_code (parse_cli_args ["thor"; "-h"; "-p"; "abc"; "http://example.org/"]
               initial_globals).1.1 <> FAILURE.
Proof. split; [reflexivity | split; [reflexivity | discriminate]]. Qed.

(** C1, amended.  For every command line without [-h]: when the token
    after the first [-p] is there and is not an integer literal, or the
    token after the first [-r] is there and is not an integer literal
    while the first [-p] is not the last token, the parser prints one
    error line (that of the [-p] block or that of the [-r] block) and
    raises [SystemExit(FAILURE)]; whatever would follow it is not run. *)
Theorem bad_value_exits_1
    (argv : list string) (g : globals) (B : Type) (core : unit -> M B) :
  py_in "-h" argv = false ->
  bad_value "-p" argv = true \/
    (bad_value "-r" argv = true /\ missing_value "-p" argv = false) ->
  exists g' line,
    (parse_cli_args argv ≫= core) g = (Raised (SystemExit FAILURE), g', [line]) /\
    ((exists tok, flag_value "-p" argv = Some (Some tok) /\ line = p_error_line tok)
     \/ line = r_error_line).
Proof.
  intros Hh Hbad.
  assert (argv <> []) as Hne.
  { destruct Hbad as [H|[H _]]; apply bad_value_inv in H;
      destruct H as (tok & H & _); eapply flag_value_nonempty, H. }
  assert (exists g' line,
            parse_cli_args argv g = (Raised (SystemExit FAILURE), g', [line]) /\
            ((exists tok, flag_value "-p" argv = Some (Some tok) /\ line = p_error_line tok)
             \/ line = r_error_line)) as (g' & line & Hrun & Hline).
  { rewrite parse_cli_args_spec, (cli_result_no_help _ _ Hne Hh).
    unfold block_result at 1.
    destruct Hbad as [Hp | [Hr Hp]].
    - apply bad_value_inv in Hp. destruct Hp as (tok & -> & ->). eauto 10.
    - apply bad_value_inv in Hr. destruct Hr as (tokr & Hr & Hir).
      unfold missing_value in Hp.
      destruct (flag_value "-p" argv) as [[tok|]|]; [|discriminate|].
      + destruct (int_literal tok) as [n|]; [|eauto 10].
        unfold block_result. rewrite Hr, Hir. eauto 10.
      + unfold block_result. rewrite Hr, Hir. eauto 10. }
  exists g', line. split; [|exact Hline].
  apply bind_raised, Hrun.
Qed.

Lemma bad_value_exits_1_witness :
  py_in "-h" ["thor"; "-p"; "2"; "-r"; "many"; "http://example.org/"] = false /\
  (bad_value "-p" ["thor"; "-p"; "2"; "-r"; "many"; "http://example.org/"] = true \/
   (bad_value "-r" ["thor"; "-p"; "2"; "-r"; "many"; "http://example.org/"] = true /\
    missing_value "-p" ["thor"; "-p"; "2"; "-r"; "many"; "http://example.org/"] = false)) /\
  exists g' line,
    (parse_cli_args ["thor"; "-p"; "2"; "-r"; "many"; "http://example.org/"]
       ≫= (fun _ => print "request sent")) initial_globals
      = (Raised (SystemExit FAILURE), g', [line]) /\
    ((exists tok,
        flag_value "-p" ["thor"; "-p"; "2"; "-r"; "many"; "http://example.org/"]
          = Some (Some tok) /\ line = p_error_line tok)
     \/ line = r_error_line).
Proof.
  split; [reflexivity|].
  split; [right; split; reflexivity|].
  apply (bad_value_exits_1 ["thor"; "-p"; "2"; "-r"; "many"; "http://example.org/"]
           initial_globals unit (fun _ => print "request sent")).
  - reflexivity.
  - right; split; reflexivity.
Defined.

(** The parser itself accepts [-p 0 -r -3]: it returns normally with
    [PROCESSES = 0] and [REQUESTS = -3] and prints nothing. *)
Example run_zero_and_negative_counts :
  parse_cli_args ["thor"; "-p"; "0"; "-r"; "-3"; "http://example.org/"] initial_globals
    = (Normal tt,
       {| PROCESSES := 0; REQUESTS := -3; VERBOSE := false;
          URL := Some "http://example.org/" |}, []).
Proof. reflexivity. Qed.

(** The parser checks no sign: for every non-empty command line without
    [-h] in which each of [-p] and [-r] is absent or followed by an integer
    literal (zero and negative ones included), it returns normally, prints
    nothing, and leaves in [PROCESSES] and [REQUESTS] the integers it
    read. *)
Lemma integer_counts_accepted (argv : list string) (g : globals) :
  argv <> [] ->
  py_in "-h" argv = false ->
  accepted_value "-p" argv = true ->
  accepted_value "-r" argv = true ->
  exists g',
    parse_cli_args argv g = (Normal tt, g', []) /\
    PROCESSES g' = count_after "-p" argv (PROCESSES g) /\
    REQUESTS g' = count_after "-r" argv (REQUESTS g).
Proof.
  intros Hne Hh Hp Hr.
  rewrite parse_cli_args_spec, (cli_result_no_help _ _ Hne Hh).
  unfold block_result, count_after.
  apply accepted_value_inv in Hp. apply accepted_value_inv in Hr.
  destruct Hp as [-> | (tp & n & -> & ->)], Hr as [-> | (tr & m & -> & ->)];
    eexists; (split; [reflexivity|]); simpl;
    rewrite ?after_flags_PROCESSES, ?after_flags_REQUESTS; split; reflexivity.
Qed.


(** ** The command line: a flag without a value *)

Lemma missing_value_inv flag argv :
  missing_value flag argv = true -> flag_value flag argv = Some None.
Proof.
  unfold missing_value. destruct (flag_value flag argv) as [[tok|]|];
    [discriminate|reflexivity|discriminate].
Qed.

(** C3, as stated, fails: on [thor -h -p] the flag [-p] is the final token
    and the program prints the usage text and exits with code 0. *)
Lemma missing_value_after_help_exits_0 :
  last ["thor"; "-h"; "-p"] = Some "-p" /\
  missing_value "-p" ["thor"; "-h"; "-p"] = true /\
  parse_cli_args ["thor"; "-h"; "-p"] initial_globals
    = (Raised (SystemExit 0),
       {| PROCESSES := 1; REQUESTS := 1; VERBOSE := false; URL := Some "-p" |},
       [usage_text "thor"]) /\
  exit_code (parse_cli_args ["thor"; "-h"; "-p"] initial_globals).1.1 <> FAILURE.
Proof. split; [|split; [|split]]; [reflexivity | reflexivity | reflexivity | discriminate]. Qed.

(** C3, amended.  For every command line without [-h] in which the first
    [-p], or the first [-r], is the final token, the program ends with
    exit code 1 and [parse_cli_args] never returns, so whatever would
    follow it is not run; what is printed on that path is not promised.
    With [-h] on the command line the program prints the usage text and
    exits with code 0. *)
Theorem missing_value_ends_with_exit_1
    (flag : string) (argv : list string) (g : globals) (B : Type) (core : unit -> M B) :
  flag = "-p" \/ flag = "-r" ->
  missing_value flag argv = true ->
  exists e g' out,
    (parse_cli_args argv ≫= core) g = (Raised e, g', out) /\
    (py_in "-h" argv = false ->
     exit_code ((parse_cli_args argv ≫= core) g).1.1 = FAILURE) /\
    (py_in "-h" argv = true ->
     e = SystemExit SUCCESS /\
     exit_code ((parse_cli_args argv ≫= core) g).1.1 = SUCCESS /\
     exists prog rest, argv = prog :: rest /\ out = [usage_text (basename prog)]).
Proof.
  intros Hflag Hmiss. apply missing_value_inv in Hmiss.
  pose proof (flag_value_nonempty _ _ _ Hmiss) as Hne.
  assert (exists e g' out,
            parse_cli_args argv g = (Raised e, g', out) /\
            (py_in "-h" argv = false -> exit_code (@Raised B e) = FAILURE) /\
            (py_in "-h" argv = true ->
             e = SystemExit SUCCESS /\
             exists prog rest, argv = prog :: rest /\ out = [usage_text (basename prog)]))
    as (e & g' & out & Hrun & Hno & Hh).
  { rewrite parse_cli_args_spec.
    destruct (py_in "-h" argv) eqn:Hhelp.
    - destruct argv as [|prog rest]; [congruence|].
      unfold cli_result. rewrite Hhelp.
      do 3 eexists. split; [reflexivity|]. split; [discriminate|].
      intros _. split; [reflexivity|]. eauto.
    - rewrite (cli_result_no_help _ _ Hne Hhelp).
      destruct Hflag as [-> | ->].
      + unfold block_result at 1. rewrite Hmiss.
        do 3 eexists. split; [reflexivity|]. split; [reflexivity|discriminate].
      + unfold block_result at 1.
        destruct (flag_value "-p" argv) as [[tok|]|];
          [destruct (int_literal tok)|..];
          try (unfold block_result; rewrite Hmiss);
          do 3 eexists; (split; [reflexivity|]);
          (split; [reflexivity|discriminate]). }
  exists e, g', out.
  rewrite (bind_raised _ core _ _ _ _ Hrun).
  split; [reflexivity|]. split; [exact Hno|].
  intros Hhelp. destruct (Hh Hhelp) as [-> Hout].
  split; [reflexivity|]. split; [reflexivity|exact Hout].
Qed.

Lemma missing_value_ends_with_exit_1_witness :
  missing_value "-r" ["thor"; "-p"; "4"; "http://example.org/"; "-r"] = true /\
  exists e g' out,
    (parse_cli_args ["thor"; "-p"; "4"; "http://example.org/"; "-r"]
       ≫= (fun _ => print "request sent")) initial_globals = (Raised e, g', out) /\
    (py_in "-h" ["thor"; "-p"; "4"; "http://example.org/"; "-r"] = false ->
     exit_code ((parse_cli_args ["thor"; "-p"; "4"; "http://example.org/"; "-r"]
                   ≫= (fun _ => print "request sent")) initial_globals).1.1 = FAILURE) /\
    (py_in "-h" ["thor"; "-p"; "4"; "http://example.org/"; "-r"] = true ->
     e = SystemExit SUCCESS /\
     exit_code ((parse_cli_args ["thor"; "-p"; "4"; "http://example.org/"; "-r"]
                   ≫= (fun _ => print "request sent")) initial_globals).1.1 = SUCCESS /\
     exists prog rest,
       ["thor"; "-p"; "4"; "http://example.org/"; "-r"] = prog :: rest /\
       out = [usage_text (basename prog)]).
Proof.
  split; [reflexivity|].
  apply (missing_value_ends_with_exit_1 "-r"
           ["thor"; "-p"; "4"; "http://example.org/"; "-r"]
           initial_globals unit (fun _ => print "request sent"));
    [right; reflexivity | reflexivity].
Defined.

(** ** Dead code in the two option blocks *)

(** Every line the parser prints, with the way the parser then ends. *)
Lemma cli_result_lines argv g line :
  line ∈ (cli_result argv g).2 ->
  (exists prog, line = usage_text prog /\
                (cli_result argv g).1.1 = Raised (SystemExit SUCCESS)) \/
  ((exists tok, line = p_error_line tok) /\
   (cli_result argv g).1.1 = Raised (SystemExit FAILURE)) \/
  (line = r_error_line /\ (cli_result argv g).1.1 = Raised (SystemExit FAILURE)).
Proof.
  unfold cli_result, block_result.
  destruct argv as [|prog rest]; [intros H; inversion H|].
  destruct (py_in "-h" (prog :: rest)).
  { simpl. intros H. apply list_elem_of_singleton in H. eauto. }
  destruct (flag_value "-p" (prog :: rest)) as [[tok|]|];
    [destruct (int_literal tok) as [n|]|..];
    (destruct (flag_value "-r" (prog :: rest)) as [[tokr|]|];
     [destruct (int_literal tokr) as [m|]|..]);
    simpl; intros H;
    solve [ inversion H | apply list_elem_of_singleton in H; eauto 10 ].
Qed.

Lemma usage_text_not_error_line prog :
  (forall tok, usage_text prog <> p_error_line tok) /\ usage_text prog <> r_error_line.
Proof. split; [intros tok|]; discriminate. Qed.

(** C9.  Whenever [flag] occurs in [argv], [argv.index(flag)] returns an
    index below [len(argv)], so the guard [idx >= len(argv)] is false and
    its [usage(FAILURE)] is never run: the parser prints the usage text
    only when it exits with [SUCCESS].  When the occurrence found is the
    final token, [argv[idx+1]] raises [IndexError], and that is how the
    parser ends for [-p], and for [-r] when the [-p] block completes. *)
Theorem missing_value_guard_is_dead (flag : string) (argv : list string) (g : globals) :
  py_in flag argv = true ->
  exists i : nat,
    list_index flag argv g = (Normal (Z.of_nat i), g, []) /\
    Z.of_nat i < len argv /\
    (Z.of_nat i >=? len argv) = false /\
    (forall prog,
       usage_text prog ∈ (parse_cli_args argv g).2 ->
       (parse_cli_args argv g).1.1 = Raised (SystemExit SUCCESS)) /\
    (Z.of_nat i + 1 = len argv ->
       getitem argv (Z.of_nat i + 1) g
         = (Raised (IndexError "list index out of range"), g, []) /\
       (py_in "-h" argv = false ->
        flag = "-p" \/ (flag = "-r" /\ accepted_value "-p" argv = true) ->
        (parse_cli_args argv g).1.1 = Raised (IndexError "list index out of range") /\
        (parse_cli_args argv g).2 = [])).
Proof.
  intros Hin. destruct (py_in_true _ _ Hin) as [i Hi]. exists i.
  pose proof (index_of_lt _ _ _ Hi) as Hlt.
  split; [unfold list_index; rewrite Hi; reflexivity|].
  split; [unfold len; lia|].
  split; [apply (guard_false _ _ _ Hi)|].
  split.
  { intros prog Hprog. rewrite parse_cli_args_spec in *.
    destruct (cli_result_lines _ _ _ Hprog) as [(p & _ & H) | [[[tok E] _] | [E _]]].
    - exact H.
    - exfalso. exact (proj1 (usage_text_not_error_line prog) tok E).
    - exfalso. exact (proj2 (usage_text_not_error_line prog) E). }
  intros Hlast. unfold len in Hlast.
  assert (argv !! S i = None) as Hnone by (apply lookup_ge_None; lia).
  split.
  { replace (Z.of_nat i + 1) with (Z.of_nat (S i)) by lia.
    rewrite getitem_nat, Hnone. reflexivity. }
  intros Hh Hflag.
  assert (flag_value flag argv = Some None) as Hmiss.
  { unfold flag_value. rewrite Hi. simpl. rewrite Hnone. reflexivity. }
  pose proof (flag_value_nonempty _ _ _ Hmiss) as Hne.
  assert (exists g', cli_result argv g
                    = (Raised (IndexError "list index out of range"), g', []))
    as [g' Hrun].
  { rewrite (cli_result_no_help _ _ Hne Hh). unfold block_result.
    destruct Hflag as [-> | [-> Hacc]].
    - rewrite Hmiss. eauto.
    - apply accepted_value_inv in Hacc.
      destruct Hacc as [-> | (tok & n & -> & ->)]; rewrite Hmiss; eauto. }
  rewrite parse_cli_args_spec, Hrun. split; reflexivity.
Qed.

Lemma missing_value_guard_is_dead_witness :
  exists i : nat,
    list_index "-p" ["thor"; "http://example.org/"; "-p"] initial_globals
      = (Normal (Z.of_nat i), initial_globals, []) /\
    Z.of_nat i < len ["thor"; "http://example.org/"; "-p"] /\
    (Z.of_nat i >=? len ["thor"; "http://example.org/"; "-p"]) = false /\
    (forall prog,
       usage_text prog
         ∈ (parse_cli_args ["thor"; "http://example.org/"; "-p"] initial_globals).2 ->
       (parse_cli_args ["thor"; "http://example.org/"; "-p"] initial_globals).1.1
         = Raised (SystemExit SUCCESS)) /\
    (Z.of_nat i + 1 = len ["thor"; "http://example.org/"; "-p"] ->
       getitem ["thor"; "http://example.org/"; "-p"] (Z.of_nat i + 1) initial_globals
         = (Raised (IndexError "list index out of range"), initial_globals, []) /\
       (py_in "-h" ["thor"; "http://example.org/"; "-p"] = false ->
        "-p" = "-p" \/
          ("-p" = "-r" /\
           accepted_value "-p" ["thor"; "http://example.org/"; "-p"] = true) ->
        (parse_cli_args ["thor"; "http://example.org/"; "-p"] initial_globals).1.1
          = Raised (IndexError "list index out of range") /\
        (parse_cli_args ["thor"; "http://example.org/"; "-p"] initial_globals).2 = [])).
Proof.
  apply (missing_value_guard_is_dead "-p" ["thor"; "http://example.org/"; "-p"]
           initial_globals).
  reflexivity.
Defined.

(** C10.  The two [except NameError] clauses are never entered: [int] of a
    string raises [ValueError] or nothing, the [try] bodies raise nothing
    but [IndexError] and [ValueError], and the parser behaves the same
    whatever stands in the place of the two clauses; a bad value is
    reported by the [ValueError] clause alone. *)
Theorem name_error_clauses_are_dead
    (on_name_error_p on_name_error_r : exn -> M unit) (argv : list string) (g : globals) :
  parse_cli_args_with on_name_error_p on_name_error_r argv g = parse_cli_args argv g /\
  (forall tok g0 m, (py_int tok g0).1.1 <> Raised (NameError m)) /\
  (forall tok g0 e, (py_int tok g0).1.1 = Raised e -> is_ValueError e = true) /\
  (forall line m,
     line ∈ (parse_cli_args argv g).2 ->
     line <> "Illegal value for process number: " +:+ m /\
     line <> "Illegal value for request number: {e}").
Proof.
  split; [rewrite parse_cli_args_with_spec, parse_cli_args_spec; reflexivity|].
  split; [intros tok g0 m; unfold py_int; destruct (int_literal tok); discriminate|].
  split.
  { intros tok g0 e. unfold py_int. destruct (int_literal tok); [discriminate|].
    intros [= <-]. reflexivity. }
  intros line m Hline. rewrite parse_cli_args_spec in Hline.
  destruct (cli_result_lines _ _ _ Hline) as [(p & -> & _) | [[[tok ->] _] | [-> _]]];
    split; discriminate.
Qed.

(** ** The dispatch engine *)

Module EngineFacts.
Import Engine.

(** *** Aggregation *)

Lemma merge_kinds_comm (m1 m2 : gmap errorKind Z) :
  merge_kinds m1 m2 = merge_kinds m2 m1.
Proof.
  apply map_eq. intros k. unfold merge_kinds.
  rewrite !lookup_union_with.
  destruct (m1 !! k), (m2 !! k); simpl; try reflexivity.
  f_equal. lia.
Qed.

Lemma merge_kinds_assoc (m1 m2 m3 : gmap errorKind Z) :
  merge_kinds m1 (merge_kinds m2 m3) = merge_kinds (merge_kinds m1 m2) m3.
Proof.
  apply map_eq. intros k. unfold merge_kinds.
  rewrite !lookup_union_with.
  destruct (m1 !! k), (m2 !! k), (m3 !! k); simpl; try reflexivity.
  f_equal. lia.
Qed.

Lemma sum_of_permutation (f : WorkerTally -> Z) (l1 l2 : list WorkerTally) :
  Permutation l1 l2 -> sum_of f l1 = sum_of f l2.
Proof.
  unfold sum_of. induction 1 as [|t l1 l2 _ IH|t u l|l1 l2 l3 _ IH1 _ IH2]; simpl.
  - reflexivity.
  - rewrite IH. reflexivity.
  - lia.
  - congruence.
Qed.

Lemma merged_kinds_permutation (l1 l2 : list WorkerTally) :
  Permutation l1 l2 -> merged_kinds l1 = merged_kinds l2.
Proof.
  unfold merged_kinds. induction 1 as [|t l1 l2 _ IH|t u l|l1 l2 l3 _ IH1 _ IH2]; simpl.
  - reflexivity.
  - rewrite IH. reflexivity.
  - rewrite !merge_kinds_assoc. f_equal. apply merge_kinds_comm.
  - congruence.
Qed.

Lemma sum_of_app (f : WorkerTally -> Z) (l1 l2 : list WorkerTally) :
  sum_of f (l1 ++ l2) = sum_of f l1 + sum_of f l2.
Proof. unfold sum_of. induction l1 as [|t l1 IH]; simpl; lia. Qed.

(** *** One worker *)

Section Worker.

Variable execute : Z -> nat -> string -> RequestOutcome.

Lemma record_outcome_attempted t o :
  attempted (record_outcome t o) = attempted t + 1.
Proof. reflexivity. Qed.

Lemma record_outcome_split t o :
  succeeded (record_outcome t o) + failed (record_outcome t o)
  = succeeded t + failed t + 1.
Proof. unfold record_outcome. simpl. destruct (ro_succeeded o); lia. Qed.

Lemma loop_attempted (f : nat -> RequestOutcome) (attempts : list nat) t :
  attempted (foldl (fun t i => record_outcome t (f i)) t attempts)
  = attempted t + Z.of_nat (length attempts).
Proof.
  revert t. induction attempts as [|i attempts IH]; intros t; simpl.
  - lia.
  - rewrite IH, record_outcome_attempted. lia.
Qed.

Lemma loop_split (f : nat -> RequestOutcome) (attempts : list nat) t :
  let t' := foldl (fun t i => record_outcome t (f i)) t attempts in
  succeeded t' + failed t' = succeeded t + failed t + Z.of_nat (length attempts).
Proof.
  revert t. induction attempts as [|i attempts IH]; intros t; simpl.
  - lia.
  - simpl in IH. rewrite IH, record_outcome_split. lia.
Qed.

Lemma run_attempted w url requests :
  0 <= requests -> attempted (run execute w url requests) = requests.
Proof.
  intros H. unfold run.
  rewrite (loop_attempted (fun i => execute w i url)).
  rewrite length_seq. simpl. lia.
Qed.

Lemma run_split w url requests :
  succeeded (run execute w url requests) + failed (run execute w url requests)
  = attempted (run execute w url requests).
Proof.
  unfold run.
  rewrite (loop_split (fun i => execute w i url)),
          (loop_attempted (fun i => execute w i url)).
  reflexivity.
Qed.

Lemma sum_of_workers (f : WorkerTally -> Z) (g : nat -> WorkerTally) (c : Z) (ws : list nat) :
  (forall w, f (g w) = c) ->
  sum_of f (map g ws) = Z.of_nat (length ws) * c.
Proof.
  intros H. unfold sum_of. induction ws as [|w ws IH]; simpl.
  - lia.
  - rewrite IH, H. lia.
Qed.

Lemma sum_of_split (ts : list WorkerTally) :
  (forall t, t ∈ ts -> succeeded t + failed t = attempted t) ->
  sum_of succeeded ts + sum_of failed ts = sum_of attempted ts.
Proof.
  unfold sum_of. induction ts as [|t ts IH]; intros H; simpl.
  - reflexivity.
  - pose proof (H t (list_elem_of_here _ _)) as Ht.
    assert (forall u, u ∈ ts -> succeeded u + failed u = attempted u) as Hts
      by (intros u Hu; apply H; right; exact Hu).
    specialize (IH Hts). lia.
Qed.

(** *** The Dispatcher's validation

    A configuration that breaks an invariant is turned down before any
    worker runs: the answer does not depend on the Request Executor. *)
Lemma runLoad_rejects_invalid
    (execute' : Z -> nat -> string -> RequestOutcome)
    (well_formed : string -> bool) (elapsed : N) (c : LoadConfig) :
  valid_config well_formed c = false ->
  exists e, runLoad execute well_formed elapsed c = inl e /\
            runLoad execute' well_formed elapsed c = inl e.
Proof.
  unfold valid_config, runLoad, validate. intros H.
  destruct (1 <=? workerCount c); [|eauto].
  destruct (1 <=? requestsPerWorker c); [|eauto].
  destruct (well_formed (targetURL c)); [discriminate|eauto].
Qed.

End Worker.

End EngineFacts.

(** C7.  For every valid configuration, whatever each request comes back
    with, [runLoad] produces a report, the report's [totalAttempted] is
    [workerCount * requestsPerWorker], and every attempt is in exactly one
    of [totalSucceeded] and [totalFailed]. *)
Theorem total_attempted_is_workers_times_requests
    (execute : Z -> nat -> string -> Engine.RequestOutcome)
    (well_formed : string -> bool) (elapsed : N) (c : Engine.LoadConfig) :
  Engine.valid_config well_formed c = true ->
  exists report,
    Engine.runLoad execute well_formed elapsed c = inr report /\
    Engine.totalAttempted report = Engine.workerCount c * Engine.requestsPerWorker c /\
    Engine.totalSucceeded report + Engine.totalFailed report
      = Engine.totalAttempted report.
Proof.
  unfold Engine.valid_config. intros Hvalid.
  apply andb_prop in Hvalid. destruct Hvalid as [Hvalid Hurl].
  apply andb_prop in Hvalid. destruct Hvalid as [Hw Hr].
  pose proof (proj1 (Z.leb_le _ _) Hw) as Hw'.
  pose proof (proj1 (Z.leb_le _ _) Hr) as Hr'.
  eexists. split; [|split].
  - unfold Engine.runLoad, Engine.validate. rewrite Hw, Hr, Hurl. reflexivity.
  - simpl. unfold Engine.spawn_all.
    rewrite (EngineFacts.sum_of_workers Engine.attempted _ (Engine.requestsPerWorker c)).
    + rewrite length_seq. lia.
    + intros w. apply EngineFacts.run_attempted. lia.
  - simpl. apply EngineFacts.sum_of_split.
    intros t Ht. unfold Engine.spawn_all in Ht.
    apply list_elem_of_fmap in Ht. destruct Ht as (w & -> & _).
    apply EngineFacts.run_split.
Qed.

(** C8.  [aggregate] gives the same report for a sequence of tallies and
    for any permutation of it, whatever the elapsed time. *)
Theorem aggregate_order_independent
    (tallies tallies' : list Engine.WorkerTally) (elapsed : N) :
  Permutation tallies tallies' ->
  Engine.aggregate tallies elapsed = Engine.aggregate tallies' elapsed.
Proof.
  intros Hperm. unfold Engine.aggregate.
  rewrite (EngineFacts.sum_of_permutation Engine.attempted _ _ Hperm),
          (EngineFacts.sum_of_permutation Engine.succeeded _ _ Hperm),
          (EngineFacts.sum_of_permutation Engine.failed _ _ Hperm),
          (EngineFacts.merged_kinds_permutation _ _ Hperm).
  reflexivity.
Qed.

Lemma total_attempted_is_workers_times_requests_witness :
  exists report,
    Engine.runLoad
      (fun w i url =>
         if Nat.even i
         then {| Engine.ro_succeeded := true; Engine.ro_latency := 10%N;
                 Engine.ro_errorKind := None |}
         else {| Engine.ro_succeeded := false; Engine.ro_latency := 3000%N;
                 Engine.ro_errorKind := Some Engine.Timeout |})
      (fun url => negb (String.eqb url EmptyString))
      42%N
      {| Engine.targetURL := "http://example.org/"; Engine.workerCount := 3;
         Engine.requestsPerWorker := 2; Engine.verbose := false |}
    = inr report /\
    Engine.totalAttempted report = 3 * 2 /\
    Engine.totalSucceeded report + Engine.totalFailed report
      = Engine.totalAttempted report.
Proof.
  apply (total_attempted_is_workers_times_requests
           (fun w i url =>
              if Nat.even i
              then {| Engine.ro_succeeded := true; Engine.ro_latency := 10%N;
                      Engine.ro_errorKind := None |}
              else {| Engine.ro_succeeded := false; Engine.ro_latency := 3000%N;
                      Engine.ro_errorKind := Some Engine.Timeout |})
           (fun url => negb (String.eqb url EmptyString))
           42%N
           {| Engine.targetURL := "http://example.org/"; Engine.workerCount := 3;
              Engine.requestsPerWorker := 2; Engine.verbose := false |}).
  reflexivity.
Defined.

Lemma aggregate_order_independent_witness :
  Engine.aggregate
    [ {| Engine.workerID := 0; Engine.attempted := 5; Engine.succeeded := 3;
         Engine.failed := 2; Engine.failuresByKind := {[ Engine.Timeout := 2 ]};
         Engine.totalLatency := 60%N |};
      {| Engine.workerID := 1; Engine.attempted := 5; Engine.succeeded := 4;
         Engine.failed := 1; Engine.failuresByKind := {[ Engine.HTTPError 503 := 1 ]};
         Engine.totalLatency := 45%N |} ] 7%N
  = Engine.aggregate
    [ {| Engine.workerID := 1; Engine.attempted := 5; Engine.succeeded := 4;
         Engine.failed := 1; Engine.failuresByKind := {[ Engine.HTTPError 503 := 1 ]};
         Engine.totalLatency := 45%N |};
      {| Engine.workerID := 0; Engine.attempted := 5; Engine.succeeded := 3;
         Engine.failed := 2; Engine.failuresByKind := {[ Engine.Timeout := 2 ]};
         Engine.totalLatency := 60%N |} ] 7%N.
Proof.
  apply aggregate_order_independent. apply perm_swap.
Defined.

(** * Further properties of the command-line layer *)

(** ** How a run ends *)

Lemma bool_decide_is_Some {A} (o : option A) :
  bool_decide (is_Some o) = match o with Some _ => true | None => false end.
Proof. destruct o; reflexivity. Qed.

(** Case analysis on the closed form: the command line is empty, or [-h]
    is there, or each of the two flags is absent, last, followed by an
    integer literal, or followed by something else. *)
Ltac cli_cases argv :=
  rewrite ?parse_cli_args_spec;
  unfold cli_result, block_result, parsed_globals, after_flags,
    bad_value, missing_value, accepted_value, count_after;
  destruct argv as [|prog rest];
  [cbn [flag_value index_of fmap option_fmap option_map py_in existsb]|
    destruct (py_in "-h" (prog :: rest)) eqn:Hh; [|
      destruct (py_in "-v" (prog :: rest)) eqn:Hv;
        (destruct (flag_value "-p" (prog :: rest)) as [[tokp|]|] eqn:Hp;
         [destruct (int_literal tokp) as [n|] eqn:Hn|..]);
        (destruct (flag_value "-r" (prog :: rest)) as [[tokr|]|] eqn:Hr;
         [destruct (int_literal tokr) as [m|] eqn:Hm|..])]];
  cbn [fst snd orb default from_option set_URL set_VERBOSE set_PROCESSES set_REQUESTS
       PROCESSES REQUESTS VERBOSE URL];
  rewrite ?bool_decide_is_Some; cbn [negb].

Lemma cli_result_accepted argv g :
  argv <> [] -> py_in "-h" argv = false ->
  accepted_value "-p" argv = true -> accepted_value "-r" argv = true ->
  cli_result argv g = (Normal tt, parsed_globals argv g, []).
Proof.
  cli_cases argv; intros; try discriminate; try congruence; reflexivity.
Qed.

(** X1.  [parse_cli_args] ends in one of four ways: it returns, having
    printed nothing; it raises [IndexError], having printed nothing; it
    raises [SystemExit(SUCCESS)] after the usage text; or it raises
    [SystemExit(FAILURE)] after exactly one error line.  No [ValueError]
    and no [NameError] reaches the caller. *)
Theorem parse_cli_args_endings (argv : list string) (g : globals) :
  ((parse_cli_args argv g).1.1 = Normal tt /\ (parse_cli_args argv g).2 = []) \/
  ((parse_cli_args argv g).1.1 = Raised (IndexError "list index out of range") /\
   (parse_cli_args argv g).2 = []) \/
  ((parse_cli_args argv g).1.1 = Raised (SystemExit SUCCESS) /\
   exists prog, (parse_cli_args argv g).2 = [usage_text prog]) \/
  ((parse_cli_args argv g).1.1 = Raised (SystemExit FAILURE) /\
   ((exists tok, (parse_cli_args argv g).2 = [p_error_line tok]) \/
    (parse_cli_args argv g).2 = [r_error_line])).
Proof.
  cli_cases argv; eauto 10.
Qed.

(** X2.  [parse_cli_args] raises [SystemExit(SUCCESS)] exactly when [-h]
    is one of the elements of [sys.argv].  The exit status of a run that
    ends with the parser is 0 exactly when [-h] is there or the parser
    returns normally, that is when [sys.argv] is not empty and each of
    [-p] and [-r] is absent or followed by an integer literal. *)
Theorem exit_success_iff_help (argv : list string) (g : globals) :
  ((parse_cli_args argv g).1.1 = Raised (SystemExit SUCCESS) <-> "-h" ∈ argv) /\
  (exit_code (parse_cli_args argv g).1.1 = SUCCESS <->
   "-h" ∈ argv \/
   (argv <> [] /\ accepted_value "-p" argv = true /\ accepted_value "-r" argv = true)).
Proof.
  rewrite <- !py_in_elem_of.
  cli_cases argv; cbn [exit_code]; unfold SUCCESS, FAILURE;
    (split; split; intros H); try discriminate; try reflexivity; auto;
    try (right; repeat split; congruence);
    try (destruct H as [H | (H0 & H1 & H2)]; congruence).
Qed.

(** X3.  The run returns normally exactly when [sys.argv] is not empty,
    [-h] is absent, and each of [-p] and [-r] is absent or has its first
    occurrence followed by an integer literal; it then leaves
    [parsed_globals] and has printed nothing. *)
Theorem returns_iff_values_accepted (argv : list string) (g : globals) :
  ((parse_cli_args argv g).1.1 = Normal tt <->
   argv <> [] /\ py_in "-h" argv = false /\
   accepted_value "-p" argv = true /\ accepted_value "-r" argv = true) /\
  ((parse_cli_args argv g).1.1 = Normal tt ->
   parse_cli_args argv g = (Normal tt, parsed_globals argv g, [])).
Proof.
  cli_cases argv; (split; [split|]); intros H;
    try discriminate; try reflexivity;
    try (destruct H as (H0 & H1 & H2 & H3); congruence);
    try (repeat split; congruence).
Qed.

(** X4.  The run ends in an unhandled [IndexError] exactly when
    [sys.argv] is empty or, [-h] being absent, the first [-p] is the last
    token, or the [-p] block completes and the first [-r] is the last
    token. *)
Theorem index_error_iff_value_missing (argv : list string) (g : globals) :
  (parse_cli_args argv g).1.1 = Raised (IndexError "list index out of range") <->
  argv = [] \/
  (py_in "-h" argv = false /\
   (missing_value "-p" argv = true \/
    (accepted_value "-p" argv = true /\ missing_value "-r" argv = true))).
Proof.
  cli_cases argv; split; intros H;
    try discriminate; try reflexivity; auto;
    try (destruct H as [H | (H0 & [H1 | [H1 H2]])]; congruence).
Qed.

(** X5.  [parse_cli_args] raises [SystemExit(FAILURE)] exactly when,
    [-h] being absent, the first [-p] is followed by a token that is no
    integer literal, or the [-p] block completes and the first [-r] is
    followed by such a token.  The exit status of a run that ends with
    the parser is 1 in more cases, the [IndexError] ones included: exactly
    when [sys.argv] is empty or, [-h] being absent, one of [-p] and [-r]
    is there without an integer literal after its first occurrence. *)
Theorem exit_failure_iff_bad_value (argv : list string) (g : globals) :
  ((parse_cli_args argv g).1.1 = Raised (SystemExit FAILURE) <->
   py_in "-h" argv = false /\
   (bad_value "-p" argv = true \/
    (accepted_value "-p" argv = true /\ bad_value "-r" argv = true))) /\
  (exit_code (parse_cli_args argv g).1.1 = FAILURE <->
   argv = [] \/
   (py_in "-h" argv = false /\
    (accepted_value "-p" argv = false \/ accepted_value "-r" argv = false))).
Proof.
  cli_cases argv; cbn [exit_code]; unfold SUCCESS, FAILURE;
    (split; split; intros H); try discriminate; try reflexivity; auto;
    try (destruct H as (H0 & [H1 | [H1 H2]]); congruence);
    try (destruct H as [H | (H0 & [H1 | H1])]; congruence).
Qed.

Lemma returns_iff_values_accepted_witness :
  parse_cli_args ["thor"; "-r"; "+5"; "-v"; "http://example.org/"] initial_globals
  = (Normal tt,
     parsed_globals ["thor"; "-r"; "+5"; "-v"; "http://example.org/"] initial_globals, []).
Proof.
  apply (proj2 (returns_iff_values_accepted
                  ["thor"; "-r"; "+5"; "-v"; "http://example.org/"] initial_globals)).
  reflexivity.
Defined.

(** ** What a run leaves in the globals *)

(** X6.  [VERBOSE] becomes [True] when [-v] is on a command line without
    [-h], and is otherwise left as it was: the parser never resets it,
    and a [-v] next to [-h] has no effect. *)
Theorem verbose_after_parsing (argv : list string) (g : globals) :
  VERBOSE (parse_cli_args argv g).1.2
  = if py_in "-h" argv then VERBOSE g else py_in "-v" argv || VERBOSE g.
Proof.
  cli_cases argv; reflexivity.
Qed.

(** X7.  The [-p] block runs before the [-r] block wherever the two flags
    stand: when the token after the first [-p] is no integer literal, the
    one line printed is the [-p] message naming that token, and neither
    [PROCESSES] nor [REQUESTS] has been assigned, whatever follows [-r]. *)
Theorem processes_checked_first (argv : list string) (g : globals) (tok : string) :
  py_in "-h" argv = false ->
  flag_value "-p" argv = Some (Some tok) ->
  int_literal tok = None ->
  parse_cli_args argv g
  = (Raised (SystemExit FAILURE), after_flags argv g,
     ["An error occurred: invalid literal for int() with base 10: "
        +:+ substring 0 200 (py_repr tok)]).
Proof.
  intros Hhelp Hflag Hint.
  rewrite parse_cli_args_spec,
    (cli_result_no_help _ _ (flag_value_nonempty _ _ _ Hflag) Hhelp).
  unfold block_result. rewrite Hflag, Hint. reflexivity.
Qed.

Lemma processes_checked_first_witness :
  parse_cli_args ["thor"; "-r"; "x"; "-p"; "y"; "http://example.org/"] initial_globals
  = (Raised (SystemExit FAILURE),
     after_flags ["thor"; "-r"; "x"; "-p"; "y"; "http://example.org/"] initial_globals,
     ["An error occurred: invalid literal for int() with base 10: "
        +:+ substring 0 200 (py_repr "y")]).
Proof.
  apply processes_checked_first; reflexivity.
Defined.

(** X8.  When the [-p] block completes and the token after the first
    [-r] is no integer literal, the one line printed is the fixed text of
    line 65, the same for every bad token; [PROCESSES] already holds the
    value read for [-p] and [REQUESTS] is left as it was. *)
Theorem requests_error_is_fixed_text (argv : list string) (g : globals) :
  py_in "-h" argv = false ->
  accepted_value "-p" argv = true ->
  bad_value "-r" argv = true ->
  exists g',
    parse_cli_args argv g = (Raised (SystemExit FAILURE), g', ["An error occured: {e}"]) /\
    PROCESSES g' = count_after "-p" argv (PROCESSES g) /\
    REQUESTS g' = REQUESTS g.
Proof.
  intros Hhelp Hacc Hbad. revert Hhelp Hacc Hbad.
  cli_cases argv; intros; try discriminate; eexists; repeat split.
Qed.

Lemma requests_error_is_fixed_text_witness :
  exists g',
    parse_cli_args ["thor"; "-p"; "8"; "-r"; "ten"; "http://example.org/"] initial_globals
      = (Raised (SystemExit FAILURE), g', ["An error occured: {e}"]) /\
    PROCESSES g' = 8 /\ REQUESTS g' = 1.
Proof.
  apply (requests_error_is_fixed_text
           ["thor"; "-p"; "8"; "-r"; "ten"; "http://example.org/"] initial_globals);
    reflexivity.
Defined.

(** X9.  Running the parser a second time on the same command line, from
    the globals the first run left, ends the same way, prints the same
    and leaves the same globals. *)
Theorem parse_cli_args_idempotent (argv : list string) (g : globals) :
  parse_cli_args argv (parse_cli_args argv g).1.2 = parse_cli_args argv g.
Proof.
  cli_cases argv; reflexivity.
Qed.

(** X10.  The way a run ends and what it prints depend on the command
    line alone, not on the values the globals hold before. *)
Theorem ending_independent_of_globals (argv : list string) (g1 g2 : globals) :
  (parse_cli_args argv g1).1.1 = (parse_cli_args argv g2).1.1 /\
  (parse_cli_args argv g1).2 = (parse_cli_args argv g2).2.
Proof.
  cli_cases argv; split; reflexivity.
Qed.

(** ** Which tokens count *)





Lemma py_in_false_of_not_elem x l : x ∉ l -> py_in x l = false.
Proof.
  intros H. destruct (py_in x l) eqn:E; [|reflexivity].
  exfalso. apply H, py_in_elem_of, E.
Qed.

(** X12.  Flags are recognised by exact match only, and nothing else is
    looked at: on a command line none of whose elements is [-h], [-v],
    [-p] or [-r], the run returns normally, prints nothing and changes
    only [URL]; tokens such as [--help] or [-x] raise no error. *)
Theorem unrecognised_tokens_ignored (argv : list string) (g : globals) :
  argv <> [] ->
  (forall flag, flag ∈ option_tokens -> flag ∉ argv) ->
  parse_cli_args argv g = (Normal tt, set_URL (last argv) g, []).
Proof.
  intros Hne Hnone.
  assert (forall flag, flag ∈ option_tokens -> py_in flag argv = false) as Hout
    by (intros flag Hflag; apply py_in_false_of_not_elem, Hnone, Hflag).
  pose proof (Hout "-h" ltac:(apply py_in_elem_of; reflexivity)) as Hh.
  pose proof (Hout "-v" ltac:(apply py_in_elem_of; reflexivity)) as Hv.
  pose proof (Hout "-p" ltac:(apply py_in_elem_of; reflexivity)) as Hp.
  pose proof (Hout "-r" ltac:(apply py_in_elem_of; reflexivity)) as Hr.
  rewrite parse_cli_args_spec, (cli_result_no_help _ _ Hne Hh).
  rewrite !block_result_absent by assumption.
  unfold after_flags. rewrite Hv. reflexivity.
Qed.

Lemma unrecognised_tokens_ignored_witness :
  parse_cli_args ["thor"; "--help"; "-x"; "-P"; "9"; "http://example.org/"] initial_globals
  = (Normal tt,
     set_URL (last ["thor"; "--help"; "-x"; "-P"; "9"; "http://example.org/"])
       initial_globals, []).
Proof.
  apply unrecognised_tokens_ignored; [discriminate|].
  intros flag Hflag Hin.
  apply py_in_elem_of in Hflag. apply py_in_elem_of in Hin.
  unfold py_in, option_tokens in Hflag. cbn [existsb] in Hflag.
  repeat (apply orb_prop in Hflag; destruct Hflag as [Hflag|Hflag];
          [apply String.eqb_eq in Hflag; subst flag; discriminate|]).
  discriminate.
Defined.

(** ** [usage] *)

Lemma rfind_from_absent c s pos found :
  contains_char c s = false -> rfind_from c s pos found = found.
Proof.
  revert pos found. induction s as [|d s IH]; intros pos found; simpl; [reflexivity|].
  intros H. apply orb_false_elim in H. destruct H as [-> H]. apply IH, H.
Qed.

Lemma rfind_from_last c s1 s2 pos found :
  contains_char c s2 = false ->
  rfind_from c (s1 +:+ String c s2) pos found = pos + Z.of_nat (String.length s1).
Proof.
  revert pos found. induction s1 as [|d s1 IH]; intros pos found Hs2; simpl.
  - rewrite Ascii.eqb_refl, (rfind_from_absent _ _ _ _ Hs2). lia.
  - rewrite (IH _ _ Hs2). lia.
Qed.

Lemma substring_all s : substring 0 (String.length s) s = s.
Proof. induction s as [|c s IH]; simpl; [reflexivity|]. rewrite IH. reflexivity. Qed.

Lemma substring_skip s1 s2 n :
  substring (String.length s1) n (s1 +:+ s2) = substring 0 n s2.
Proof.
  induction s1 as [|c s1 IH]; [reflexivity|].
  change (substring (String.length s1) n (s1 +:+ s2) = substring 0 n s2). exact IH.
Qed.

Lemma length_append s1 s2 :
  String.length (s1 +:+ s2) = (String.length s1 + String.length s2)%nat.
Proof.
  induction s1 as [|c s1 IH]; [reflexivity|].
  change (S (String.length (s1 +:+ s2)) = S (String.length s1 + String.length s2)).
  f_equal. exact IH.
Qed.

Lemma append_char s1 c s2 :
  (s1 +:+ String c EmptyString) +:+ s2 = s1 +:+ String c s2.
Proof.
  induction s1 as [|d s1 IH]; [reflexivity|].
  change (String d ((s1 +:+ String c EmptyString) +:+ s2) = String d (s1 +:+ String c s2)).
  f_equal. exact IH.
Qed.

Lemma basename_after_last_slash dir name :
  contains_char "/"%char name = false ->
  basename (dir +:+ String "/"%char name) = name.
Proof.
  intros H. unfold basename, rfind. cbv zeta.
  rewrite (rfind_from_last _ _ _ _ _ H).
  replace (Z.to_nat (0 + Z.of_nat (String.length dir) + 1))
    with (String.length (dir +:+ "/")) by (rewrite length_append; simpl; lia).
  rewrite <- (append_char dir "/"%char name).
  rewrite substring_skip, !length_append.
  replace (String.length dir + String.length "/" + String.length name
           - (String.length dir + String.length "/"))%nat
    with (String.length name) by lia.
  apply substring_all.
Qed.

Lemma basename_without_slash name :
  contains_char "/"%char name = false -> basename name = name.
Proof.
  intros H. unfold basename, rfind. cbv zeta.
  rewrite (rfind_from_absent _ _ _ _ H). simpl.
  rewrite Nat.sub_0_r. apply substring_all.
Qed.

(** X13.  [usage] never returns and leaves the globals alone: it prints
    the usage text once and raises [SystemExit] with the status it was
    given.  The program name in the text is [sys.argv[0]] without its
    directories: what follows the last slash, or all of it when it holds
    no slash. *)
Theorem usage_names_program_without_directories
    (dir name : string) (rest : list string) (status : Z) (g : globals) :
  contains_char "/"%char name = false ->
  usage (A := unit) ((dir +:+ String "/"%char name) :: rest) status g
    = (Raised (SystemExit status), g, [usage_text name]) /\
  usage (A := unit) (name :: rest) status g
    = (Raised (SystemExit status), g, [usage_text name]).
Proof.
  intros H. unfold usage, mbind, M_bind, bind.
  rewrite !(getitem_nat _ 0). cbn [lookup list_lookup].
  rewrite (basename_after_last_slash _ _ H), (basename_without_slash _ H).
  split; reflexivity.
Qed.

Lemma usage_names_program_without_directories_witness :
  usage (A := unit) (("/usr/local/bin" +:+ String "/"%char "thor.py") :: ["-h"]) 0
    initial_globals
    = (Raised (SystemExit 0), initial_globals, [usage_text "thor.py"]) /\
  usage (A := unit) ("thor.py" :: ["-h"]) 0 initial_globals
    = (Raised (SystemExit 0), initial_globals, [usage_text "thor.py"]).
Proof.
  apply usage_names_program_without_directories. reflexivity.
Defined.

(** * The program as a whole *)

Module ProgramFacts.
Import Engine Program.

Lemma foldl_ext_in {A B} (f f' : A -> B -> A) (l : list B) (a : A) :
  (forall a x, In x l -> f a x = f' a x) -> foldl f a l = foldl f' a l.
Proof.
  revert a. induction l as [|x l IH]; intros a H; simpl; [reflexivity|].
  rewrite (H a x (or_introl eq_refl)). apply IH.
  intros a' y Hy. apply H. right. exact Hy.
Qed.

(** The Dispatcher reads the Request Executor only at the calls listed in
    [requests_issued]. *)
Lemma runLoad_reads_issued_only
    (execute execute' : Z -> nat -> string -> RequestOutcome)
    (well_formed : string -> bool) (elapsed : N) (c : LoadConfig) :
  (forall w i, In (w, i) (requests_issued well_formed c) ->
               execute w i (targetURL c) = execute' w i (targetURL c)) ->
  runLoad execute well_formed elapsed c = runLoad execute' well_formed elapsed c.
Proof.
  unfold runLoad, requests_issued.
  destruct (validate well_formed c); [reflexivity|]. intros H.
  f_equal. f_equal. unfold spawn_all.
  apply map_ext_in. intros w Hw. unfold run.
  apply foldl_ext_in. intros t i Hi. f_equal.
  apply H. apply in_flat_map. exists w. split; [exact Hw|].
  apply in_map_iff. exists i. split; [reflexivity|exact Hi].
Qed.

(** A count that is zero or negative fails the Dispatcher's validation. *)
Lemma validate_nonpositive (well_formed : string -> bool) (c : LoadConfig) :
  workerCount c <= 0 \/ requestsPerWorker c <= 0 ->
  exists e, validate well_formed c = Some e.
Proof.
  intros H. unfold validate.
  destruct (Z.leb_spec 1 (workerCount c)); [|simpl; eauto].
  destruct (Z.leb_spec 1 (requestsPerWorker c)); [|simpl; eauto].
  lia.
Qed.

Lemma not_positive_value_inv flag argv :
  not_positive_value flag argv = true ->
  accepted_value flag argv = true ->
  forall d, count_after flag argv d <= 0.
Proof.
  unfold not_positive_value, accepted_value, count_after.
  destruct (flag_value flag argv) as [[tok|]|]; try discriminate.
  destruct (int_literal tok) as [n|]; [|discriminate].
  intros H _ d. apply Z.leb_le in H. exact H.
Qed.

(** Without [-h], a flag whose first occurrence has no integer literal
    after it ends the parser with an exception that gives exit code 1. *)
Lemma cli_result_not_accepted argv g :
  argv <> [] -> py_in "-h" argv = false ->
  accepted_value "-p" argv = false \/ accepted_value "-r" argv = false ->
  exists e g' out,
    cli_result argv g = (Raised e, g', out) /\
    (e = SystemExit FAILURE \/ e = IndexError "list index out of range").
Proof.
  cli_cases argv; intros Hne Hhelp Hacc; try discriminate; try congruence;
    try (destruct Hacc; discriminate); eauto 10.
Qed.

End ProgramFacts.

(** C2, as stated, fails: on [thor -h -p 0 URL] the count after [-p] is
    zero, the parser prints the usage text and raises [SystemExit(0)]
    before anything looks at the count, and the program exits with code
    0. *)
Lemma not_positive_count_after_help_exits_0 :
  not_positive_value "-p" ["thor"; "-h"; "-p"; "0"; "http://example.org/"] = true /\
  Program.main
    (fun w i url =>
       {| Engine.ro_succeeded := true; Engine.ro_latency := 10%N;
          Engine.ro_errorKind := None |})
    (fun url => negb (String.eqb url EmptyString))
    42%N
    (fun e => "configuration error")
    ["thor"; "-h"; "-p"; "0"; "http://example.org/"] initial_globals
  = (Raised (SystemExit 0),
     {| PROCESSES := 1; REQUESTS := 1; VERBOSE := false;
        URL := Some "http://example.org/" |},
     [usage_text "thor"]) /\
  exit_code
    (Program.main
       (fun w i url =>
          {| Engine.ro_succeeded := true; Engine.ro_latency := 10%N;
             Engine.ro_errorKind := None |})
       (fun url => negb (String.eqb url EmptyString))
       42%N
       (fun e => "configuration error")
       ["thor"; "-h"; "-p"; "0"; "http://example.org/"] initial_globals).1.1
    <> FAILURE.
Proof. split; [reflexivity | split; [reflexivity | discriminate]]. Qed.

(** C2, amended.  For every command line without [-h], a worker count or
    requests-per-worker value that is not a positive integer, in
    particular zero or a negative integer, given as the token after the
    first [-p] or the first [-r], is a configuration error: the program
    exits with code 1 and no request is executed, whatever the Request
    Executor would answer.  When the parser accepts the values of both
    flags, it is the Dispatcher's validation that turns the configuration
    down, before any worker starts.  (With [-h] the usage text is printed
    and the exit code is 0.) *)
Theorem not_positive_count_is_configuration_error
    (execute : Z -> nat -> string -> Engine.RequestOutcome)
    (well_formed : string -> bool) (elapsed : N)
    (describe : Engine.ConfigurationError -> string)
    (argv : list string) (g : globals) :
  py_in "-h" argv = false ->
  not_positive_value "-p" argv = true \/ not_positive_value "-r" argv = true ->
  exit_code (Program.main execute well_formed elapsed describe argv g).1.1 = FAILURE /\
  Program.requests_of_main well_formed argv g = [] /\
  (forall execute',
     Program.main execute' well_formed elapsed describe argv g
     = Program.main execute well_formed elapsed describe argv g) /\
  (accepted_value "-p" argv = true -> accepted_value "-r" argv = true ->
   exists e,
     Engine.validate well_formed (Program.config_of_globals (parsed_globals argv g))
       = Some e /\
     Program.main execute well_formed elapsed describe argv g
     = (Raised (SystemExit FAILURE), parsed_globals argv g, [describe e])).
Proof.
  intros Hhelp Hnon.
  assert (argv <> []) as Hne.
  { destruct Hnon as [H|H]; intros ->; discriminate. }
  assert (accepted_value "-p" argv = true -> accepted_value "-r" argv = true ->
          exists e,
            Engine.validate well_formed
              (Program.config_of_globals (parsed_globals argv g)) = Some e /\
            (forall execute0,
               Program.main execute0 well_formed elapsed describe argv g
               = (Raised (SystemExit FAILURE), parsed_globals argv g, [describe e])) /\
            Program.requests_of_main well_formed argv g = []) as Hboth.
  { intros Hp Hr.
    pose proof (cli_result_accepted argv g Hne Hhelp Hp Hr) as Hrun.
    rewrite <- parse_cli_args_spec in Hrun.
    destruct (ProgramFacts.validate_nonpositive well_formed
                (Program.config_of_globals (parsed_globals argv g))) as [e He].
    { cbn [Program.config_of_globals Engine.workerCount Engine.requestsPerWorker
           parsed_globals PROCESSES REQUESTS].
      destruct Hnon as [H|H]; [left|right];
        apply (ProgramFacts.not_positive_value_inv _ _ H); assumption. }
    exists e. split; [exact He|]. split.
    - intros execute0.
      unfold Program.main, mbind, M_bind, bind. rewrite Hrun.
      unfold Program.dispatch, Engine.runLoad. rewrite He. reflexivity.
    - unfold Program.requests_of_main. rewrite Hrun.
      unfold Program.requests_issued. rewrite He. reflexivity. }
  destruct (accepted_value "-p" argv) eqn:Hp, (accepted_value "-r" argv) eqn:Hr.
  1: { destruct (Hboth eq_refl eq_refl) as (e & He & Hmain & Hreq).
       split; [rewrite Hmain; reflexivity|]. split; [exact Hreq|].
       split; [intros execute'; rewrite !Hmain; reflexivity|].
       intros _ _. exists e. split; [exact He|apply Hmain]. }
  all: destruct (ProgramFacts.cli_result_not_accepted argv g Hne Hhelp)
         as (e & g' & out & Hrun & He); [auto|];
       rewrite <- parse_cli_args_spec in Hrun;
       assert (forall execute0,
                 Program.main execute0 well_formed elapsed describe argv g
                 = (Raised e, g', out)) as Hmain
         by (intros execute0; apply bind_raised, Hrun);
       (split; [rewrite Hmain; destruct He as [-> | ->]; reflexivity|]);
       (split; [unfold Program.requests_of_main; rewrite Hrun; reflexivity|]);
       (split; [intros execute'; rewrite !Hmain; reflexivity|]);
       intros; discriminate.
Qed.

Lemma not_positive_count_is_configuration_error_witness :
  exit_code
    (Program.main
       (fun w i url =>
          {| Engine.ro_succeeded := true; Engine.ro_latency := 10%N;
             Engine.ro_errorKind := None |})
       (fun url => negb (String.eqb url EmptyString))
       42%N
       (fun e => "configuration error")
       ["thor"; "-p"; "0"; "-r"; "-3"; "http://example.org/"] initial_globals).1.1
    = FAILURE /\
  Program.requests_of_main (fun url => negb (String.eqb url EmptyString))
    ["thor"; "-p"; "0"; "-r"; "-3"; "http://example.org/"] initial_globals = [].
Proof.
  destruct (not_positive_count_is_configuration_error
              (fun w i url =>
                 {| Engine.ro_succeeded := true; Engine.ro_latency := 10%N;
                    Engine.ro_errorKind := None |})
              (fun url => negb (String.eqb url EmptyString))
              42%N
              (fun e => "configuration error")
              ["thor"; "-p"; "0"; "-r"; "-3"; "http://example.org/"] initial_globals)
    as (Hexit & Hreq & _); [reflexivity | left; reflexivity |].
  split; [exact Hexit | exact Hreq].
Defined.
